(** * A shallow embedding of the job-worker runtime (worker.go)

    The development follows the source file top to bottom: the data
    model (jobs, option structs, errors), the queue capability
    interfaces, the worker registry ([Validate], [RegisterWithContext],
    [Start], [Stop]), the per-queue loop of [start] (its [flush]
    closure and the body of one dequeue-then-handle cycle), the bulk
    dequeue adapter [getDequeueFunc] and the middleware [idleWait],
    [catchPanic] and [retry].

    Conventions.
    - Go's [int64] and [time.Duration] are [Z] with the wrap-around of
      every arithmetic operation written out ([wrap64]).
    - A Go [error] interface value is an [option error]: [None] is
      [nil].
    - A function that receives a [*Job] and may write through it takes
      the job and returns the job as it is after the call.
    - One loop goroutine runs against a [State]: the environment
      (backend and user state, clock, random source, observable calls)
      together with the variables its closures capture ([jobs] of the
      dequeue adapter, [ackJobs] of the loop).
    - A Go panic is the [Panic] result; nothing else unwinds.
    - A backend method returns (it does not panic), and a dequeue
      returns either a job (a slice of jobs) or an error, not both and
      not neither. *)

From Stdlib Require Import ZArith QArith String List Bool Lia.
From stdpp Require Import base gmap strings list fin_maps.
Import ListNotations.

Local Open Scope Z_scope.

(** ** Machine integers and time *)

Definition int64_min : Z := - 2 ^ 63.
Definition int64_max : Z := 2 ^ 63 - 1.

(** Two's-complement wrap-around of a 64-bit signed result. *)
Definition wrap64 (z : Z) : Z := (z + 2 ^ 63) mod 2 ^ 64 - 2 ^ 63.

Definition add64 (x y : Z) : Z := wrap64 (x + y).
Definition mul64 (x y : Z) : Z := wrap64 (x * y).
(** Go's [/] on integers truncates toward zero. *)
Definition quot64 (x y : Z) : Z := wrap64 (Z.quot x y).

Definition in_int64 (z : Z) : Prop := int64_min <= z <= int64_max.

(** [time.Duration]: a signed 64-bit count of nanoseconds. *)
Definition Duration : Type := Z.
(** [time.Time]: an instant, in nanoseconds on an unbounded line. *)
Definition Time : Type := Z.

Definition Millisecond : Duration := 1000000.
Definition Second : Duration := 1000000000.
Definition Hour : Duration := 3600 * Second.

(** [t.Add(d)]. *)
Definition Time_Add (t : Time) (d : Duration) : Time := t + d.

(** ** Jobs and option structs *)

(** Modelled from the spec: the struct [Job] is declared outside
    worker.go; its fields are those of the data model (an identifier, a
    retry counter, a last-error string, an enqueue time, an updated-at
    time and a payload the worker never inspects). *)
Record Job : Type := mkJob {
  ID : string;
  UpdatedAt : Time;
  EnqueuedAt : Time;
  Payload : list Byte.byte;
  Retries : Z;
  LastError : string
}.

Definition set_Retries (j : Job) (n : Z) : Job :=
  mkJob (ID j) (UpdatedAt j) (EnqueuedAt j) (Payload j) n (LastError j).
Definition set_LastError (j : Job) (s : string) : Job :=
  mkJob (ID j) (UpdatedAt j) (EnqueuedAt j) (Payload j) (Retries j) s.
Definition set_UpdatedAt (j : Job) (t : Time) : Job :=
  mkJob (ID j) t (EnqueuedAt j) (Payload j) (Retries j) (LastError j).
Definition set_EnqueuedAt (j : Job) (t : Time) : Job :=
  mkJob (ID j) (UpdatedAt j) t (Payload j) (Retries j) (LastError j).

(** Modelled from the spec: [DequeueOptions], [EnqueueOptions] and
    [AckOptions] are declared outside worker.go; the fields are the ones
    worker.go reads and writes. *)
Module DequeueOptions.
Record t : Type := mk {
  Namespace : string;
  QueueID : string;
  At : Time;
  InvisibleSec : Z
}.
Definition set_InvisibleSec (o : t) (n : Z) : t :=
  mk (Namespace o) (QueueID o) (At o) n.
End DequeueOptions.

Module EnqueueOptions.
Record t : Type := mk { Namespace : string; QueueID : string }.
End EnqueueOptions.

Module AckOptions.
Record t : Type := mk { Namespace : string; QueueID : string }.
End AckOptions.

(** ** Errors

    The error values worker.go builds are the two concrete types of the
    Go library: [*errors.errorString] (from [errors.New], and from
    [fmt.Errorf] without [%w]) and [*fmt.wrapError] (from [fmt.Errorf]
    with [%w]).  Both are pointers, compared by address: [errorRef] is
    that address, either a package-level variable or an allocation made
    while the program runs. *)

Inductive errorRef : Type :=
| PkgVar (name : string)
| Alloc (n : N).

Inductive error : Type :=
| errorString (p : errorRef) (s : string)
| wrapError (p : errorRef) (msg : string) (err : error).

#[global] Instance errorRef_eq_dec : EqDecision errorRef.
Proof. solve_decision. Defined.

#[global] Instance error_eq_dec : EqDecision error.
Proof. solve_decision. Defined.

(** The method [Error()]. *)
Definition Error (e : error) : string :=
  match e with
  | errorString _ s => s
  | wrapError _ msg _ => msg
  end.

(** The method [Unwrap()], where the type has one. *)
Definition Unwrap (e : error) : option error :=
  match e with
  | errorString _ _ => None
  | wrapError _ _ err => Some err
  end.

(** [errors.Is(err, target)] for non-nil arguments: walk the [Unwrap]
    chain of [err] and compare each link with [target]. *)
Fixpoint errors_Is (err target : error) : bool :=
  if bool_decide (err = target) then true
  else match err with
       | errorString _ _ => false
       | wrapError _ _ inner => errors_Is inner target
       end.

(** [errors.New] at package level. *)
Definition errors_New (var : string) (text : string) : error :=
  errorString (PkgVar var) text.

(** [fmt.Errorf(prefix + "%w", inner)] at package level. *)
Definition fmt_Errorf_w (var : string) (prefix : string) (inner : error) : error :=
  wrapError (PkgVar var) (prefix +:+ Error inner) inner.

Definition ErrMaxExecutionTime : error :=
  errors_New "ErrMaxExecutionTime" "work: max execution time should be > 0".
Definition ErrNumGoroutines : error :=
  errors_New "ErrNumGoroutines" "work: number of goroutines should be > 0".
Definition ErrIdleWait : error :=
  errors_New "ErrIdleWait" "work: idle wait should be > 0".

Definition ErrDoNotRetry : error :=
  errors_New "ErrDoNotRetry" "work: do not retry".
Definition ErrQueueNotFound : error :=
  errors_New "ErrQueueNotFound" "work: queue is not found".
Definition ErrUnrecoverable : error :=
  fmt_Errorf_w "ErrUnrecoverable" "work: permanent error: " ErrDoNotRetry.
Definition ErrUnsupported : error :=
  errors_New "ErrUnsupported" "work: unsupported".

(** Modelled from the spec: [ErrEmptyQueue] is declared outside
    worker.go; it is the empty-queue signal, a package-level error that
    wraps nothing. *)
Definition ErrEmptyQueue : error :=
  errors_New "ErrEmptyQueue" "work: no job is found".

(** ** Panics *)

(** The value a panic carries: a string, an error, or one of the
    run-time errors of the language.  ([panic(nil)] is a run-time error
    too, since Go 1.21.) *)
Inductive PanicValue : Type :=
| PString (s : string)
| PError (e : error)
| PRuntime (msg : string).

(** What the verb [%v] prints for a panic value. *)
Definition fmt_v (r : PanicValue) : string :=
  match r with
  | PString s => s
  | PError e => Error e
  | PRuntime msg => "runtime error: " +:+ msg
  end.

Definition indexOutOfRange0 : PanicValue :=
  PRuntime "index out of range [0] with length 0".
Definition divideByZero : PanicValue :=
  PRuntime "integer divide by zero".
Definition nilDereference : PanicValue :=
  PRuntime "invalid memory address or nil pointer dereference".

(** The result of a call: it returns a value or it panics. *)
Inductive Res (A : Type) : Type :=
| Ret (a : A)
| Panic (r : PanicValue).
Arguments Ret {A} a.
Arguments Panic {A} r.

(** ** What a loop does to the outside *)

Inductive Event : Type :=
| EvDequeue (o : DequeueOptions.t)
| EvBulkDequeue (count : Z) (o : DequeueOptions.t)
| EvAck (j : Job) (o : AckOptions.t)
| EvBulkAck (js : list Job) (o : AckOptions.t)
| EvEnqueue (j : Job) (o : EnqueueOptions.t)
| EvSleep (d : Duration)
| EvPrintln (s : string).

(** [context.Context], as far as worker.go uses it: a deadline. *)
Record Context : Type := mkContext { deadline : option Time }.

Definition context_Background : Context := mkContext None.

(** [context.WithTimeout(ctx, d)] at instant [now]: the earlier of the
    parent's deadline and [now + d]. *)
Definition context_WithTimeout (ctx : Context) (d : Duration) (now : Time) : Context :=
  match deadline ctx with
  | Some t => mkContext (Some (Z.min t (Time_Add now d)))
  | None => mkContext (Some (Time_Add now d))
  end.

(** [github.com/cenkalti/backoff/v4]'s [ExponentialBackOff]: the public
    fields worker.go sets and the current interval [Reset] initialises.
    The two float64 fields hold the value of their decimal literal. *)
Record ExponentialBackOff : Type := mkBackOff {
  InitialInterval : Duration;
  RandomizationFactor : Q;
  Multiplier : Q;
  MaxInterval : Duration;
  MaxElapsedTime : Duration;
  currentInterval : Duration;
  startTime : Time
}.

(** [backoff.NewExponentialBackOff()]: the library's defaults. *)
Definition NewExponentialBackOff (now : Time) : ExponentialBackOff :=
  mkBackOff (500 * Millisecond) (1 # 2) (3 # 2) (60 * Second) (900 * Second)
            (500 * Millisecond) now.

(** [b.Reset()]. *)
Definition Reset (b : ExponentialBackOff) (now : Time) : ExponentialBackOff :=
  mkBackOff (InitialInterval b) (RandomizationFactor b) (Multiplier b)
            (MaxInterval b) (MaxElapsedTime b) (InitialInterval b) now.

(** ** The loop's state, the queue interfaces and the function types *)

Section Runtime.

(** [Σ] is the state of everything outside the worker (the backend,
    whatever user code keeps); [Rand] is the state of the random
    source the backoff library draws from. *)
Context {Σ Rand : Type}.

(** [NextBackOff()] of the backoff library: it draws from the random
    source and advances the schedule.  Its arithmetic is the
    library's, in float64. *)
Variable NextBackOff :
  ExponentialBackOff -> Rand -> Duration * ExponentialBackOff * Rand.

(** [debug.Stack()]: the formatted stack trace of the goroutine. *)
Variable debug_Stack : Σ -> string.

Record State : Type := mkState {
  ext : Σ;
  clock : Time;
  rand : Rand;
  calls : list Event;
  allocs : N;
  jobs : list Job;
  ackJobs : list Job
}.

Definition set_ext (st : State) (s : Σ) : State :=
  mkState s (clock st) (rand st) (calls st) (allocs st) (jobs st) (ackJobs st).
Definition set_rand (st : State) (r : Rand) : State :=
  mkState (ext st) (clock st) r (calls st) (allocs st) (jobs st) (ackJobs st).
Definition log (st : State) (e : Event) : State :=
  mkState (ext st) (clock st) (rand st) (calls st ++ [e]) (allocs st)
          (jobs st) (ackJobs st).
Definition set_allocs (st : State) (n : N) : State :=
  mkState (ext st) (clock st) (rand st) (calls st) n (jobs st) (ackJobs st).
Definition set_jobs (st : State) (js : list Job) : State :=
  mkState (ext st) (clock st) (rand st) (calls st) (allocs st) js (ackJobs st).
Definition set_ackJobs (st : State) (js : list Job) : State :=
  mkState (ext st) (clock st) (rand st) (calls st) (allocs st) (jobs st) js.

(** [time.Now()]. *)
Definition time_Now (st : State) : Time := clock st.

(** Modelled from the spec: the interfaces [Queue] and [BulkDequeuer]
    are declared outside worker.go.  [Queue] is the required contract
    (Dequeue, Ack, Enqueue); [BulkDequeuer] is the optional capability
    worker.go probes with a type assertion and on which it calls both
    [BulkDequeue] and [BulkAck].  A dequeue returns a job (a slice of
    jobs) or an error; the methods act on the outside state. *)
Record BulkDequeuer : Type := mkBulkDequeuer {
  BulkDequeue : Z -> DequeueOptions.t -> Σ -> (list Job + error) * Σ;
  BulkAck : list Job -> AckOptions.t -> Σ -> option error * Σ
}.

Record Queue : Type := mkQueue {
  Dequeue : DequeueOptions.t -> Σ -> (Job + error) * Σ;
  Ack : Job -> AckOptions.t -> Σ -> option error * Σ;
  Enqueue : Job -> EnqueueOptions.t -> Σ -> option error * Σ;
  asBulkDequeuer : option BulkDequeuer
}.

(** The calls the worker makes on a backend, each one recorded. *)
Definition queue_Dequeue (q : Queue) (o : DequeueOptions.t) (st : State)
  : (Job + error) * State :=
  let '(r, s) := Dequeue q o (ext st) in (r, log (set_ext st s) (EvDequeue o)).

Definition queue_Ack (q : Queue) (j : Job) (o : AckOptions.t) (st : State)
  : option error * State :=
  let '(r, s) := Ack q j o (ext st) in (r, log (set_ext st s) (EvAck j o)).

Definition queue_Enqueue (q : Queue) (j : Job) (o : EnqueueOptions.t) (st : State)
  : option error * State :=
  let '(r, s) := Enqueue q j o (ext st) in (r, log (set_ext st s) (EvEnqueue j o)).

Definition bulk_BulkDequeue (b : BulkDequeuer) (count : Z) (o : DequeueOptions.t)
           (st : State) : (list Job + error) * State :=
  let '(r, s) := BulkDequeue b count o (ext st) in
  (r, log (set_ext st s) (EvBulkDequeue count o)).

Definition bulk_BulkAck (b : BulkDequeuer) (js : list Job) (o : AckOptions.t)
           (st : State) : option error * State :=
  let '(r, s) := BulkAck b js o (ext st) in
  (r, log (set_ext st s) (EvBulkAck js o)).

(** [DequeueFunc] generates a job. *)
Definition DequeueFunc : Type :=
  DequeueOptions.t -> State -> Res (Job + error) * State.

(** [DequeueMiddleware] modifies [DequeueFunc] behavior. *)
Definition DequeueMiddleware : Type := DequeueFunc -> DequeueFunc.

(** [HandleFunc] runs a job: the result, the job as the call leaves
    it, and the state. *)
Definition HandleFunc : Type :=
  Job -> DequeueOptions.t -> State -> Res (option error) * Job * State.

(** [ContextHandleFunc] runs a job. *)
Definition ContextHandleFunc : Type :=
  Context -> Job -> DequeueOptions.t -> State -> Res (option error) * Job * State.

(** [HandleMiddleware] modifies [HandleFunc] behavior. *)
Definition HandleMiddleware : Type := HandleFunc -> HandleFunc.

(** [WorkerOptions] is used to create a worker.  The interface field
    [Queue] and the function field [ErrorFunc] may be nil. *)
Record WorkerOptions : Type := mkWorkerOptions {
  Namespace : string;
  WQueue : option Queue;
  ErrorFunc : option (error -> State -> State)
}.

(** [JobOptions] specifies how a job is executed. *)
Record JobOptions : Type := mkJobOptions {
  JWorkerOptions : WorkerOptions;
  MaxExecutionTime : Duration;
  IdleWait : Duration;
  NumGoroutines : Z;
  JDequeueMiddleware : list DequeueMiddleware;
  JHandleMiddleware : list HandleMiddleware
}.

Record handler : Type := mkHandler {
  h_QueueID : string;
  h_HandleFunc : ContextHandleFunc;
  h_JobOptions : JobOptions
}.

(** [Worker] runs jobs.  [cancel] is nil until [Start]; [wg] is the
    counter of the wait group; [cancelled] tells whether the
    cancellation scope of [Start] was triggered. *)
Record Worker : Type := mkWorker {
  opt : WorkerOptions;
  cancel : option unit;
  cancelled : bool;
  wg : Z;
  handlerMap : gmap string handler
}.

(** [NewWorker] creates a new worker. *)
Definition NewWorker (o : WorkerOptions) : Worker :=
  mkWorker o None false 0 ∅.

(** [AddDequeueMiddleware] adds a [DequeueMiddleware]. *)
Definition AddDequeueMiddleware (o : JobOptions) (mw : DequeueMiddleware) : JobOptions :=
  mkJobOptions (JWorkerOptions o) (MaxExecutionTime o) (IdleWait o)
               (NumGoroutines o) (JDequeueMiddleware o ++ [mw]) (JHandleMiddleware o).

(** [AddHandleMiddleware] adds a [HandleMiddleware]. *)
Definition AddHandleMiddleware (o : JobOptions) (mw : HandleMiddleware) : JobOptions :=
  mkJobOptions (JWorkerOptions o) (MaxExecutionTime o) (IdleWait o)
               (NumGoroutines o) (JDequeueMiddleware o) (JHandleMiddleware o ++ [mw]).

(** [Validate] validates [JobOptions]. *)
Definition Validate (o : JobOptions) : option error :=
  if MaxExecutionTime o <=? 0 then Some ErrMaxExecutionTime
  else if IdleWait o <=? 0 then Some ErrIdleWait
  else if NumGoroutines o <=? 0 then Some ErrNumGoroutines
  else None.

(** [RegisterWithContext] adds a handler for a queue; the stored
    handler runs the caller's under a timeout of [MaxExecutionTime]. *)
Definition RegisterWithContext (w : Worker) (queueID : string)
           (h : ContextHandleFunc) (o : JobOptions) : option error * Worker :=
  match Validate o with
  | Some err => (Some err, w)
  | None =>
      let hd :=
        mkHandler queueID
          (fun ctx job dopt st =>
             h (context_WithTimeout ctx (MaxExecutionTime o) (time_Now st)) job dopt st)
          o in
      (None, mkWorker (opt w) (cancel w) (cancelled w) (wg w)
                      (<[queueID := hd]> (handlerMap w)))
  end.

(** [Register] adds a handler for a queue. *)
Definition Register (w : Worker) (queueID : string) (h : HandleFunc)
           (o : JobOptions) : option error * Worker :=
  RegisterWithContext w queueID (fun _ job dopt => h job dopt) o.

(** The goroutines [Start] launches for one handler: the inner [for]
    runs while [i < NumGoroutines]. *)
Definition goroutines_of (h : handler) : Z :=
  Z.max 0 (NumGoroutines (h_JobOptions h)).

(** [Start] starts the worker: a fresh cancellation scope, and
    [wg.Add(1)] once for every loop goroutine. *)
Definition Start (w : Worker) : Worker :=
  mkWorker (opt w) (Some tt) false
           (map_fold (fun _ h n => n + goroutines_of h) (wg w) (handlerMap w))
           (handlerMap w).

(** What a call of [Stop] does: it returns, or [wg.Wait()] blocks on
    the loops that are still running. *)
Inductive StopResult : Type :=
| Stopped (w : Worker)
| Waiting (w : Worker).

(** [Stop] stops the worker. *)
Definition Stop (w : Worker) : StopResult :=
  let w1 :=
    match cancel w with
    | Some _ => mkWorker (opt w) (cancel w) true (wg w) (handlerMap w)
    | None => w
    end in
  if wg w1 =? 0 then Stopped w1 else Waiting w1.

(** ** The loop of one queue: [start] *)

(** The queue of a loop: the handler's own, else the worker's. *)
Definition start_queue (w : Worker) (h : handler) : option Queue :=
  match WQueue (JWorkerOptions (h_JobOptions h)) with
  | Some q => Some q
  | None => WQueue (opt w)
  end.

(** The namespace of a loop: the handler's own unless it is empty. *)
Definition start_ns (w : Worker) (h : handler) : string :=
  if String.eqb (Namespace (JWorkerOptions (h_JobOptions h))) EmptyString
  then Namespace (opt w)
  else Namespace (JWorkerOptions (h_JobOptions h)).

(** The error sink of a loop; by default errors are printed. *)
Definition start_errFunc (w : Worker) (h : handler) : error -> State -> State :=
  match ErrorFunc (JWorkerOptions (h_JobOptions h)) with
  | Some f => f
  | None =>
      match ErrorFunc (opt w) with
      | Some f => f
      | None => fun err st => log st (EvPrintln (Error err))
      end
  end.

(** The [for _, job := range ackJobs] of [flush]: one [Ack] per job,
    in order, until one fails. *)
Fixpoint ackEach (queue : Queue) (o : AckOptions.t) (js : list Job) (st : State)
  : option error * State :=
  match js with
  | [] => (None, st)
  | job :: rest =>
      let '(err, st1) := queue_Ack queue job o st in
      match err with
      | Some e => (Some e, st1)
      | None => ackEach queue o rest st1
      end
  end.

(** The closure [flush] of [start]; it reads and writes the captured
    [ackJobs]. *)
Definition flush (queue : Queue) (ns : string) (h : handler) (st : State)
  : option error * State :=
  let o := AckOptions.mk ns (h_QueueID h) in
  match asBulkDequeuer queue with
  | Some bulkDeq =>
      let '(err, st1) := bulk_BulkAck bulkDeq (ackJobs st) o st in
      match err with
      | Some e => (Some e, st1)
      | None => (None, set_ackJobs st1 [])
      end
  | None =>
      let '(err, st1) := ackEach queue o (ackJobs st) st in
      match err with
      | Some e => (Some e, st1)
      | None => (None, set_ackJobs st1 [])
      end
  end.

(** [const flushIntv = time.Second]. *)
Definition flushIntv : Duration := Second.

(** [int64(2 * (h.JobOptions.MaxExecutionTime + flushIntv) / time.Second)]:
    the sum, the product and the quotient are [Duration] operations. *)
Definition invisibleSec (maxExecutionTime : Duration) : Z :=
  quot64 (mul64 2 (add64 maxExecutionTime flushIntv)) Second.

(** The [DequeueOptions] a cycle builds. *)
Definition cycleOptions (ns : string) (h : handler) (st : State) : DequeueOptions.t :=
  DequeueOptions.mk ns (h_QueueID h) (time_Now st)
                    (invisibleSec (MaxExecutionTime (h_JobOptions h))).

(** The [default] branch of the loop: one dequeue-then-handle cycle. *)
Definition cycle (queue : Queue) (ns : string) (h : handler)
           (errFunc : error -> State -> State)
           (dequeue : DequeueFunc) (handle : HandleFunc) (st : State)
  : Res (option error) * State :=
  let o := cycleOptions ns h st in
  let '(r, st1) := dequeue o st in
  match r with
  | Panic v => (Panic v, st1)
  | Ret (inr err) =>
      if errors_Is err ErrEmptyQueue then (Ret (Some err), st1)
      else (Ret (Some err), errFunc err st1)
  | Ret (inl job) =>
      let '(hr, job1, st2) := handle job o st1 in
      match hr with
      | Panic v => (Panic v, st2)
      | Ret (Some err) => (Ret (Some err), st2)
      | Ret None =>
          let st3 := set_ackJobs st2 (ackJobs st2 ++ [job1]) in
          if 1000 <=? Z.of_nat (length (ackJobs st3)) then
            let '(ferr, st4) := flush queue ns h st3 in
            match ferr with
            | Some e => (Ret (Some e), errFunc e st4)
            | None => (Ret None, st4)
            end
          else (Ret None, st3)
      end
  end.

(** The [flushTicker.C] branch, and the deferred flush on exit. *)
Definition tick (queue : Queue) (ns : string) (h : handler)
           (errFunc : error -> State -> State) (st : State) : State :=
  let '(err, st1) := flush queue ns h st in
  match err with
  | Some e => errFunc e st1
  | None => st1
  end.

(** ** [getDequeueFunc] *)

Definition getDequeueFunc (queue : Queue) : DequeueFunc :=
  match asBulkDequeuer queue with
  | None =>
      fun o st => let '(r, st1) := queue_Dequeue queue o st in (Ret r, st1)
  | Some bulkDeq =>
      fun o st =>
        let fetched : Res (option error) * State :=
          if Z.of_nat (length (jobs st)) =? 0 then
            if DequeueOptions.InvisibleSec o =? 0 then (Panic divideByZero, st)
            else
              let count := quot64 60 (DequeueOptions.InvisibleSec o) in
              let count := if count <=? 0 then 1 else count in
              let bulkOpt :=
                DequeueOptions.set_InvisibleSec o
                  (mul64 (DequeueOptions.InvisibleSec o) count) in
              let '(r, st1) := bulk_BulkDequeue bulkDeq count bulkOpt st in
              match r with
              | inr err => (Ret (Some err), set_jobs st1 [])
              | inl js => (Ret None, set_jobs st1 js)
              end
          else (Ret None, st) in
        match fetched with
        | (Panic v, st1) => (Panic v, st1)
        | (Ret (Some err), st1) => (Ret (inr err), st1)
        | (Ret None, st1) =>
            match jobs st1 with
            | [] => (Panic indexOutOfRange0, st1)
            | job :: rest => (Ret (inl job), set_jobs st1 rest)
            end
        end
  end.

(** ** [idleWait] *)

(** On the empty-queue error the wrapper waits for [d] or for the
    cancellation of [ctx], whichever comes first. *)
Definition idleWait (ctx : Context) (d : Duration) : DequeueMiddleware :=
  fun f o st =>
    let '(r, st1) := f o st in
    match r with
    | Panic v => (Panic v, st1)
    | Ret (inr err) =>
        if errors_Is err ErrEmptyQueue
        then (Ret (inr err), log st1 (EvSleep d))
        else (Ret (inr err), st1)
    | Ret (inl job) => (Ret (inl job), st1)
    end.

(** ** [catchPanic] *)

Definition newline : string := String (Ascii.ascii_of_nat 10) EmptyString.

(** The text of [fmt.Errorf("panic: %v\n\n%s", r, debug.Stack())]. *)
Definition panicMessage (r : PanicValue) (stack : string) : string :=
  "panic: " +:+ fmt_v r +:+ newline +:+ newline +:+ stack.

Definition catchPanic (f : HandleFunc) : HandleFunc :=
  fun job o st =>
    let '(r, job1, st1) := f job o st in
    match r with
    | Panic v =>
        let err := errorString (Alloc (allocs st1))
                               (panicMessage v (debug_Stack (ext st1))) in
        (Ret (Some err), job1, set_allocs st1 (N.succ (allocs st1)))
    | Ret e => (Ret e, job1, st1)
    end.

(** ** [retry] *)

(** [for i := int64(0); i < job.Retries; i++ { next = b.NextBackOff() }],
    run [n] times. *)
Fixpoint backoffLoop (n : nat) (next : Duration) (b : ExponentialBackOff) (r : Rand)
  : Duration * ExponentialBackOff * Rand :=
  match n with
  | O => (next, b, r)
  | S n' =>
      let '(d, b1, r1) := NextBackOff b r in
      backoffLoop n' d b1 r1
  end.

(** The schedule [retry] configures, after [b.Reset()]. *)
Definition retryBackOff (now : Time) : ExponentialBackOff :=
  let b := NewExponentialBackOff now in
  let b := mkBackOff (2 * Second) (1 # 5) (8 # 5) (24 * Hour) 0
                     (currentInterval b) (startTime b) in
  Reset b now.

Definition retry (queue : Queue) : HandleMiddleware :=
  fun f job o st =>
    let '(r, job1, st1) := f job o st in
    match r with
    | Panic v => (Panic v, job1, st1)
    | Ret None => (Ret None, job1, st1)
    | Ret (Some err) =>
        if errors_Is err ErrUnrecoverable then (Ret None, job1, st1)
        else if errors_Is err ErrDoNotRetry then (Ret (Some err), job1, st1)
        else
          let now := time_Now st1 in
          let job2 := set_Retries job1 (add64 (Retries job1) 1) in
          let job3 := set_LastError job2 (Error err) in
          let job4 := set_UpdatedAt job3 now in
          let b := retryBackOff now in
          let '(next, _, r1) :=
            backoffLoop (Z.to_nat (Retries job4)) 0 b (rand st1) in
          let job5 := set_EnqueuedAt job4 (Time_Add now next) in
          let '(_, st2) :=
            queue_Enqueue queue job5
              (EnqueueOptions.mk (DequeueOptions.Namespace o)
                                 (DequeueOptions.QueueID o))
              (set_rand st1 r1) in
          (Ret (Some err), job5, st2)
    end.

(** ** The two pipelines [start] builds *)

Definition start_dequeue (queue : Queue) (ctx : Context) (h : handler) : DequeueFunc :=
  idleWait ctx (IdleWait (h_JobOptions h))
    (fold_left (fun dequeue mw => mw dequeue)
               (JDequeueMiddleware (h_JobOptions h))
               (getDequeueFunc queue)).

Definition start_handle (queue : Queue) (ctx : Context) (h : handler) : HandleFunc :=
  retry queue
    (catchPanic
       (fold_left (fun handle mw => mw handle)
                  (JHandleMiddleware (h_JobOptions h))
                  (fun job o => h_HandleFunc h ctx job o))).

(** One cycle of the loop [start] runs for handler [h]. *)
Definition start_cycle (w : Worker) (ctx : Context) (h : handler) (st : State)
  : Res (option error) * State :=
  match start_queue w h with
  | None => (Panic nilDereference, st)
  | Some queue =>
      cycle queue (start_ns w h) h (start_errFunc w h)
            (start_dequeue queue ctx h) (start_handle queue ctx h) st
  end.

(** ** Notions the statements below are phrased with *)

(** The first [n] values of a schedule: [NextBackOff] called [n]
    times in a row. *)
Fixpoint schedule (n : nat) (b : ExponentialBackOff) (r : Rand) : list Duration :=
  match n with
  | O => []
  | S n' =>
      let '(d, b1, r1) := NextBackOff b r in
      d :: schedule n' b1 r1
  end.

(** [delay k]: the [k]-th value of a fresh schedule (advance it [k]
    times and use the last value); no delay when there is no step. *)
Definition delay (now : Time) (k : Z) (r : Rand) : Duration :=
  List.last (schedule (Z.to_nat k) (retryBackOff now) r) 0.

(** A dequeue function called once per element of [os], in order. *)
Fixpoint dequeueAll (dequeue : DequeueFunc) (os : list DequeueOptions.t) (st : State)
  : list (Res (Job + error)) * State :=
  match os with
  | [] => ([], st)
  | o :: os' =>
      let '(r, st1) := dequeue o st in
      let '(rs, st2) := dequeueAll dequeue os' st1 in
      (r :: rs, st2)
  end.

(** The largest [MaxExecutionTime] for which
    [2 * (MaxExecutionTime + flushIntv)] is a [Duration]. *)
Definition maxExecutionTime_limit : Duration := 2 ^ 62 - 1 - Second.

(** The [count] of [getDequeueFunc] for a given InvisibleSec. *)
Definition bulkCount (inv : Z) : Z :=
  if quot64 60 inv <=? 0 then 1 else quot64 60 inv.

(** What [flush] leaves alone. *)
Definition same_frame (st st' : State) : Prop :=
  clock st' = clock st /\ rand st' = rand st /\ allocs st' = allocs st /\
  jobs st' = jobs st.

(** [acked queue o js s s']: acknowledging the jobs [js] one after
    the other from backend state [s] succeeds every time and leaves
    the backend in [s']. *)
Inductive acked (queue : Queue) (o : AckOptions.t) : list Job -> Σ -> Σ -> Prop :=
| acked_nil s : acked queue o [] s s
| acked_cons j js s s1 s2 :
    Ack queue j o s = (None, s1) ->
    acked queue o js s1 s2 ->
    acked queue o (j :: js) s s2.

(** The workers on which [Start] was never called: a new worker, and
    what registrations (accepted or refused) make of it. *)
Inductive never_started : Worker -> Prop :=
| ns_new o : never_started (NewWorker o)
| ns_register w queueID h o :
    never_started w ->
    never_started (snd (RegisterWithContext w queueID h o)).

End Runtime.

(** [contains s sub]: [sub] occurs in [s]. *)
Definition contains (s sub : string) : Prop :=
  exists pre post : string, s = pre +:+ sub +:+ post.

(** ** Concrete backends, handlers and states for the examples *)

Module Examples.

(** An in-memory backend: the outside state is the list of waiting
    jobs. *)
Definition Mem : Type := list Job.

Definition memDequeue (o : DequeueOptions.t) (s : Mem) : (Job + error) * Mem :=
  match s with
  | [] => (inr ErrEmptyQueue, s)
  | j :: s' => (inl j, s')
  end.

Definition memAck (j : Job) (o : AckOptions.t) (s : Mem) : option error * Mem :=
  (None, s).

Definition memEnqueue (j : Job) (o : EnqueueOptions.t) (s : Mem) : option error * Mem :=
  (None, s ++ [j]).

Definition memQueue : @Queue Mem := mkQueue memDequeue memAck memEnqueue None.

(** A bulk backend that signals the empty queue with [ErrEmptyQueue]. *)
Definition memBulk : @BulkDequeuer Mem :=
  mkBulkDequeuer
    (fun count o s =>
       match s with
       | [] => (inr ErrEmptyQueue, s)
       | _ => (inl (take (Z.to_nat count) s), drop (Z.to_nat count) s)
       end)
    (fun js o s => (None, s)).

Definition bulkQueue : @Queue Mem :=
  mkQueue memDequeue memAck memEnqueue (Some memBulk).

(** A bulk backend that answers an empty queue with an empty slice
    and no error. *)
Definition sliceBulk : @BulkDequeuer Mem :=
  mkBulkDequeuer
    (fun count o s => (inl (take (Z.to_nat count) s), drop (Z.to_nat count) s))
    (fun js o s => (None, s)).

Definition sliceQueue : @Queue Mem :=
  mkQueue memDequeue memAck memEnqueue (Some sliceBulk).

Definition errBackend : error := errorString (Alloc 0) "backend: refused".

(** A backend that refuses to acknowledge the job called "bad" and
    refuses every enqueue. *)
Definition pickyQueue : @Queue Mem :=
  mkQueue memDequeue
          (fun j o s => if String.eqb (ID j) "bad" then (Some errBackend, s) else (None, s))
          (fun j o s => (Some errBackend, s))
          None.

(** A schedule without randomness, for the examples: each step
    returns the current interval and multiplies it by 8/5, up to the
    maximum. *)
Definition plainBackOff (b : ExponentialBackOff) (r : unit)
  : Duration * ExponentialBackOff * unit :=
  (currentInterval b,
   mkBackOff (InitialInterval b) (RandomizationFactor b) (Multiplier b)
             (MaxInterval b) (MaxElapsedTime b)
             (Z.min (MaxInterval b) (currentInterval b * 8 / 5)) (startTime b),
   r).

Definition stack (s : Mem) : string := "goroutine 7 [running]:".

Definition job1 : Job := mkJob "a" 0 0 [] 0 EmptyString.
Definition job2 : Job := mkJob "b" 0 0 [] 0 EmptyString.
Definition jobBad : Job := mkJob "bad" 0 0 [] 0 EmptyString.

Definition st0 : @State Mem unit := mkState [] 5 tt [] 1 [] [].
Definition st2 : @State Mem unit := mkState [job1; job2] 5 tt [] 1 [] [].

Definition errBoom : error := errorString (Alloc 0) "boom".

Definition okHandler : @HandleFunc Mem unit :=
  fun job o st => (Ret None, job, st).
Definition failWith (e : error) : @HandleFunc Mem unit :=
  fun job o st => (Ret (Some e), job, st).
Definition panicHandler : @HandleFunc Mem unit :=
  fun job o st => (Panic (PString "oops"), job, st).

Definition wopts : @WorkerOptions Mem unit := mkWorkerOptions "ns" (Some memQueue) None.
Definition noOverride : @WorkerOptions Mem unit := mkWorkerOptions EmptyString None None.

Definition jopts (maxExec idle : Duration) (n : Z) : @JobOptions Mem unit :=
  mkJobOptions noOverride maxExec idle n [] [].

Definition hd (maxExec : Duration) : @handler Mem unit :=
  mkHandler "q" (fun _ => okHandler) (jopts maxExec Second 1).

Definition dopts (inv : Z) : DequeueOptions.t := DequeueOptions.mk "ns" "q" 5 inv.

End Examples.

(** ** Metrics: [ExportMetrics] *)

(** Modelled from the spec: [QueueMetricsOptions], [QueueMetrics],
    [Metrics] and the interface [MetricsExporter] are declared outside
    worker.go.  The options have the three fields worker.go fills in;
    a snapshot is opaque to the worker; [Metrics] holds the snapshots
    in its field [Queue]. *)
Module QueueMetricsOptions.
Record t : Type := mk { Namespace : string; QueueID : string; At : Time }.
End QueueMetricsOptions.

Section Metrics.

Context {Σ Rand QueueMetrics : Type}.

Record MetricsExporter : Type := mkMetricsExporter {
  GetQueueMetrics :
    QueueMetricsOptions.t -> Σ -> (QueueMetrics + error) * Σ
}.

Record Metrics : Type := mkMetrics { MQueue : list QueueMetrics }.

(** The type assertion [queue.(MetricsExporter)]. *)
Variable asMetricsExporter : @Queue Σ -> option MetricsExporter.

(** The exporter [ExportMetrics] finds for a handler: the assertion on
    the handler's queue, else the worker's; it fails on a nil queue. *)
Definition exporter_of (w : @Worker Σ Rand) (h : @handler Σ Rand)
  : option MetricsExporter :=
  match start_queue w h with
  | Some queue => asMetricsExporter queue
  | None => None
  end.

(** The options of the query for a handler. *)
Definition metricsOptions (w : @Worker Σ Rand) (h : @handler Σ Rand)
           (st : @State Σ Rand) : QueueMetricsOptions.t :=
  QueueMetricsOptions.mk (start_ns w h) (h_QueueID h) (time_Now st).

(** The body of [for _, h := range w.handlerMap], over the handlers in
    the order the [range] visits them. *)
Fixpoint exportEach (w : @Worker Σ Rand) (hs : list (@handler Σ Rand))
         (queueMetrics : list QueueMetrics) (st : @State Σ Rand)
  : (list QueueMetrics + error) * @State Σ Rand :=
  match hs with
  | [] => (inl queueMetrics, st)
  | h :: rest =>
      match exporter_of w h with
      | None => exportEach w rest queueMetrics st
      | Some exporter =>
          let '(r, s) :=
            GetQueueMetrics exporter (metricsOptions w h st) (ext st) in
          match r with
          | inr err => (inr err, set_ext st s)
          | inl m => exportEach w rest (queueMetrics ++ [m]) (set_ext st s)
          end
      end
  end.

(** [ExportMetrics] dumps queue stats if the queue implements
    [MetricsExporter].  Go leaves the order of a [range] over a map
    open: [order] is the order of this call. *)
Definition ExportMetrics (w : @Worker Σ Rand) (order : list (@handler Σ Rand))
           (st : @State Σ Rand) : (Metrics + error) * @State Σ Rand :=
  match exportEach w order [] st with
  | (inl queueMetrics, st1) => (inl (mkMetrics queueMetrics), st1)
  | (inr err, st1) => (inr err, st1)
  end.

(** The orders a [range] over the registry can take. *)
Definition range_order (w : @Worker Σ Rand) (order : list (@handler Σ Rand)) : Prop :=
  order ≡ₚ (map_to_list (handlerMap w)).*2.

(** [exported w hs st ms st']: going through [hs] from state [st], the
    handlers without an exporter are passed over, every query of the
    others succeeds, the snapshots are [ms] in that order, and the
    state is [st'] at the end. *)
Inductive exported (w : @Worker Σ Rand)
  : list (@handler Σ Rand) -> @State Σ Rand -> list QueueMetrics -> @State Σ Rand -> Prop :=
| exported_nil st : exported w [] st [] st
| exported_skip h hs st ms st' :
    exporter_of w h = None ->
    exported w hs st ms st' ->
    exported w (h :: hs) st ms st'
| exported_query h hs st exporter m s ms st' :
    exporter_of w h = Some exporter ->
    GetQueueMetrics exporter (metricsOptions w h st) (ext st) = (inl m, s) ->
    exported w hs (set_ext st s) ms st' ->
    exported w (h :: hs) st (m :: ms) st'.

End Metrics.

(** ** Further notions for the statements *)

(** The calls a bulk-capable dequeue adapter may make. *)
Definition isBulkDequeue (e : Event) : Prop :=
  match e with
  | EvBulkDequeue _ _ => True
  | _ => False
  end.

(** The calls [retry] may make. *)
Definition isEnqueue (e : Event) : Prop :=
  match e with
  | EvEnqueue _ _ => True
  | _ => False
  end.

(** ** More concrete instances *)

Module MoreExamples.

(** A snapshot, for the examples: the number of waiting jobs. *)
Definition countExporter : @MetricsExporter Examples.Mem nat :=
  mkMetricsExporter (fun o s => (inl (length s), s)).

Definition brokenExporter : @MetricsExporter Examples.Mem nat :=
  mkMetricsExporter (fun o s => (inr Examples.errBackend, s)).

(** In the examples the bulk-capable backends export metrics, the
    others do not. *)
Definition bulkExports (q : @Queue Examples.Mem) : option (@MetricsExporter Examples.Mem nat) :=
  match asBulkDequeuer q with
  | Some _ => Some countExporter
  | None => None
  end.

Definition hdOn (queueID : string) (q : option (@Queue Examples.Mem))
  : @handler Examples.Mem unit :=
  mkHandler queueID (fun _ => Examples.okHandler)
            (mkJobOptions (mkWorkerOptions EmptyString q None) Second Second 2 [] []).

(** A dequeue middleware that prints a line before it calls on. *)
Definition announce (line : string) : @DequeueMiddleware Examples.Mem unit :=
  fun f o st => f o (log st (EvPrintln line)).

(** A handle middleware that prints a line before it calls on. *)
Definition announceHandle (line : string) : @HandleMiddleware Examples.Mem unit :=
  fun f job o st => f job o (log st (EvPrintln line)).

Definition buffered (js : list Job) : @State Examples.Mem unit :=
  mkState [] 5 tt [] 1 [] js.

Definition stJob : @State Examples.Mem unit :=
  mkState [Examples.job1] 5 tt [] 1 [] [].

Definition jobMax : Job := mkJob "m" 0 0 [] int64_max EmptyString.

End MoreExamples.

(** * Properties *)

(** ** 64-bit arithmetic *)

(** Goals and hypotheses about the int64 range, by linear arithmetic. *)
Ltac int64_lia := unfold in_int64, int64_min, int64_max in *; lia.

Lemma wrap64_small (z : Z) : in_int64 z -> wrap64 z = z.
Proof.
  unfold wrap64. intros Hz. rewrite Z.mod_small; int64_lia.
Qed.

Lemma wrap64_range (z : Z) : in_int64 (wrap64 z).
Proof.
  unfold in_int64, int64_min, int64_max, wrap64.
  pose proof (Z.mod_pos_bound (z + 2 ^ 63) (2 ^ 64) ltac:(lia)). lia.
Qed.

Lemma add64_small (x y : Z) : in_int64 (x + y) -> add64 x y = x + y.
Proof. apply wrap64_small. Qed.

Lemma mul64_small (x y : Z) : in_int64 (x * y) -> mul64 x y = x * y.
Proof. apply wrap64_small. Qed.

Lemma quot64_nonneg (x y : Z) :
  0 <= x -> 0 < y -> in_int64 x -> quot64 x y = x / y.
Proof.
  intros Hx Hy Hr. unfold quot64. rewrite Z.quot_div_nonneg by lia.
  apply wrap64_small. unfold in_int64, int64_min, int64_max in *.
  split.
  - pose proof (Z.div_pos x y Hx Hy). lia.
  - pose proof (Z.div_le_upper_bound x y (2 ^ 63 - 1) Hy). nia.
Qed.

Lemma invisibleSec_exact (m : Duration) :
  0 < m -> m <= maxExecutionTime_limit ->
  invisibleSec m = (2 * (m + flushIntv)) / Second.
Proof.
  unfold maxExecutionTime_limit, invisibleSec, flushIntv, Second. intros Hpos Hle.
  rewrite add64_small by int64_lia.
  rewrite mul64_small by int64_lia.
  apply quot64_nonneg; int64_lia.
Qed.

Section CycleOptions.

Context {Σ Rand : Type}.

Lemma Validate_None (o : @JobOptions Σ Rand) :
  Validate o = None <->
  0 < MaxExecutionTime o /\ 0 < IdleWait o /\ 0 < NumGoroutines o.
Proof.
  unfold Validate.
  destruct (Z.leb_spec (MaxExecutionTime o) 0);
    destruct (Z.leb_spec (IdleWait o) 0);
    destruct (Z.leb_spec (NumGoroutines o) 0);
    split; intros; try discriminate; try lia; reflexivity.
Qed.

(** A cycle hands the options it builds, and no others, to the
    dequeue pipeline and to the handle pipeline. *)
Lemma cycle_uses_cycleOptions (queue : @Queue Σ) ns (h : @handler Σ Rand) errFunc
      (dequeue : DequeueFunc) (handle : HandleFunc) (st : State) :
  cycle queue ns h errFunc dequeue handle st =
  cycle queue ns h errFunc
        (fun _ => dequeue (cycleOptions ns h st))
        (fun job _ => handle job (cycleOptions ns h st)) st.
Proof. reflexivity. Qed.

(** C1 (as amended).  For a validated handler whose MaxExecutionTime
    is small enough for [2 * (MaxExecutionTime + flushIntv)] to be a
    64-bit duration, the options of every cycle carry InvisibleSec =
    floor (2 * (MaxExecutionTime + 1 s) / 1 s).  That number of
    seconds is at least 2, at least twice the whole seconds of
    MaxExecutionTime plus 2, and, as a duration, lies in
    (2 * (MaxExecutionTime + flushIntv) - 1 s,
     2 * (MaxExecutionTime + flushIntv)]; it reaches
    [2 * (MaxExecutionTime + flushIntv)] exactly when MaxExecutionTime
    is a multiple of half a second.  The cycle passes these options,
    and no others, to the dequeue pipeline and the handle pipeline. *)
Theorem cycle_invisibleSec (ns : string) (h : @handler Σ Rand) (st : State) :
  Validate (h_JobOptions h) = None ->
  MaxExecutionTime (h_JobOptions h) <= maxExecutionTime_limit ->
  let m := MaxExecutionTime (h_JobOptions h) in
  let s := DequeueOptions.InvisibleSec (cycleOptions ns h st) in
  s = (2 * (m + flushIntv)) / Second /\
  2 <= s /\
  2 * (m / Second + 1) <= s /\
  2 * (m + flushIntv) - Second < s * Second <= 2 * (m + flushIntv) /\
  (s * Second = 2 * (m + flushIntv) <-> (2 * m) mod Second = 0) /\
  (forall (queue : @Queue Σ) errFunc (dequeue : DequeueFunc) (handle : HandleFunc),
      cycle queue ns h errFunc dequeue handle st =
      cycle queue ns h errFunc
            (fun _ => dequeue (cycleOptions ns h st))
            (fun job _ => handle job (cycleOptions ns h st)) st).
Proof.
  intros Hv Hle m s.
  apply Validate_None in Hv. destruct Hv as (Hm & _ & _). fold m in Hm, Hle.
  assert (Hs : s = (2 * (m + flushIntv)) / Second).
  { unfold s, cycleOptions. simpl. fold m. apply invisibleSec_exact; assumption. }
  split; [exact Hs|].
  unfold flushIntv, Second in *.
  pose proof (Z.div_mod (2 * (m + 1000000000)) 1000000000 ltac:(lia)) as Hdm.
  pose proof (Z.mod_pos_bound (2 * (m + 1000000000)) 1000000000 ltac:(lia)) as Hb.
  pose proof (Z.div_mod m 1000000000 ltac:(lia)) as Hdm'.
  pose proof (Z.mod_pos_bound m 1000000000 ltac:(lia)) as Hb'.
  assert (Hmod : (2 * (m + 1000000000)) mod 1000000000 = (2 * m) mod 1000000000).
  { replace (2 * (m + 1000000000)) with (2 * m + 2 * 1000000000) by lia.
    apply Z.mod_add. lia. }
  rewrite <- Hs in Hdm.
  split; [lia|]. split; [lia|]. split; [lia|]. split; [split; lia|].
  intros queue errFunc dequeue handle. reflexivity.
Qed.

End CycleOptions.

(** A limit of 1.3 s: validation accepts it and InvisibleSec is 4. *)
Lemma cycle_invisibleSec_witness :
  let h := Examples.hd (1300 * Millisecond) in
  let s := DequeueOptions.InvisibleSec (cycleOptions "ns" h Examples.st0) in
  Validate (h_JobOptions h) = None /\
  MaxExecutionTime (h_JobOptions h) <= maxExecutionTime_limit /\
  s = 4 /\
  2 * (1300 * Millisecond + flushIntv) - Second < s * Second
    <= 2 * (1300 * Millisecond + flushIntv).
Proof.
  intros h s.
  assert (Hv : Validate (h_JobOptions h) = None) by reflexivity.
  assert (Hle : MaxExecutionTime (h_JobOptions h) <= maxExecutionTime_limit)
    by (vm_compute; discriminate).
  destruct (cycle_invisibleSec "ns" h Examples.st0 Hv Hle) as (H1 & _ & _ & H4 & _).
  split; [exact Hv|]. split; [exact Hle|].
  split; [unfold s; rewrite H1; reflexivity|exact H4].
Defined.

(** C1, as the claim states it, fails.  At a MaxExecutionTime of
    300 ms validation accepts the options, the cycle carries
    InvisibleSec = 2, and 2 s is less than 2 * (300 ms + 1 s) = 2.6 s.
    At a MaxExecutionTime of 2^62 ns validation accepts the options
    too, the product wraps around, and InvisibleSec is negative: it is
    neither the whole seconds of 2 * (MaxExecutionTime + 1 s) nor at
    least that long. *)
Lemma invisibleSec_below_twice_the_sum :
  let h := Examples.hd (300 * Millisecond) in
  let s := DequeueOptions.InvisibleSec (cycleOptions "ns" h Examples.st0) in
  let h' := Examples.hd (2 ^ 62) in
  let s' := DequeueOptions.InvisibleSec (cycleOptions "ns" h' Examples.st0) in
  (Validate (h_JobOptions h) = None /\
   s = 2 /\
   ~ (2 * (MaxExecutionTime (h_JobOptions h) + flushIntv) <= s * Second)) /\
  (Validate (h_JobOptions h') = None /\
   s' = -9223372034 /\
   s' <> (2 * (MaxExecutionTime (h_JobOptions h') + flushIntv)) / Second /\
   ~ (2 * (MaxExecutionTime (h_JobOptions h') + flushIntv) <= s' * Second)).
Proof.
  intros h s h' s'. split.
  - split; [reflexivity|]. split; [reflexivity|].
    vm_compute. intros H. apply H. reflexivity.
  - split; [reflexivity|]. split; [reflexivity|]. split.
    + vm_compute. discriminate.
    + vm_compute. intros H. apply H. reflexivity.
Qed.

(** Beyond [maxExecutionTime_limit] the product wraps around: validation
    accepts a MaxExecutionTime of 2^62 ns and InvisibleSec is negative;
    at 2^63 - 10^9 ns it is zero. *)
Example invisibleSec_wraps :
  Validate (h_JobOptions (Examples.hd (2 ^ 62))) = None /\
  invisibleSec (2 ^ 62) = -9223372034 /\
  invisibleSec (2 ^ 63 - Second) = 0.
Proof. repeat split; reflexivity. Qed.

(** ** The registry: [Validate], [RegisterWithContext], [Stop] *)

Section Registry.

Context {Σ Rand : Type}.

Lemma validation_errors_distinct :
  ErrMaxExecutionTime <> ErrIdleWait /\
  ErrIdleWait <> ErrNumGoroutines /\
  ErrMaxExecutionTime <> ErrNumGoroutines /\
  errors_Is ErrMaxExecutionTime ErrIdleWait = false /\
  errors_Is ErrIdleWait ErrNumGoroutines = false /\
  errors_Is ErrMaxExecutionTime ErrNumGoroutines = false.
Proof. repeat split; (discriminate || reflexivity). Qed.

Lemma Validate_cases (o : @JobOptions Σ Rand) :
  (MaxExecutionTime o <= 0 -> Validate o = Some ErrMaxExecutionTime) /\
  (0 < MaxExecutionTime o -> IdleWait o <= 0 -> Validate o = Some ErrIdleWait) /\
  (0 < MaxExecutionTime o -> 0 < IdleWait o -> NumGoroutines o <= 0 ->
   Validate o = Some ErrNumGoroutines).
Proof.
  unfold Validate.
  destruct (Z.leb_spec (MaxExecutionTime o) 0);
    destruct (Z.leb_spec (IdleWait o) 0);
    destruct (Z.leb_spec (NumGoroutines o) 0);
    repeat split; intros; try lia; reflexivity.
Qed.

Lemma RegisterWithContext_refused (w : @Worker Σ Rand) queueID h o err :
  Validate o = Some err ->
  RegisterWithContext w queueID h o = (Some err, w).
Proof. intros Hv. unfold RegisterWithContext. rewrite Hv. reflexivity. Qed.

Lemma RegisterWithContext_accepted (w : @Worker Σ Rand) queueID h o :
  Validate o = None ->
  exists hd,
    RegisterWithContext w queueID h o =
      (None, mkWorker (opt w) (cancel w) (cancelled w) (wg w)
                      (<[queueID := hd]> (handlerMap w))) /\
    h_QueueID hd = queueID /\
    h_JobOptions hd = o /\
    forall ctx job dopt st,
      h_HandleFunc hd ctx job dopt st =
      h (context_WithTimeout ctx (MaxExecutionTime o) (time_Now st)) job dopt st.
Proof.
  intros Hv. unfold RegisterWithContext. rewrite Hv.
  eexists. split; [reflexivity|]. simpl. auto.
Qed.

(** C8.  Registration fails exactly when MaxExecutionTime, IdleWait or
    NumGoroutines is not positive; the first violation in that order
    decides the error, and the three errors are distinct; a refused
    registration leaves the worker (and so its registry) as it was; an
    accepted one stores the record under its queue id, leaves the
    other entries alone, and a later accepted registration under the
    same id replaces it.  [Register] is [RegisterWithContext] on the
    handler that ignores the context. *)
Theorem RegisterWithContext_spec
        (w : @Worker Σ Rand) (queueID : string) (h : ContextHandleFunc)
        (o : JobOptions) :
  let r := RegisterWithContext w queueID h o in
  (fst r <> None <->
     MaxExecutionTime o <= 0 \/ IdleWait o <= 0 \/ NumGoroutines o <= 0) /\
  (MaxExecutionTime o <= 0 -> fst r = Some ErrMaxExecutionTime) /\
  (0 < MaxExecutionTime o -> IdleWait o <= 0 -> fst r = Some ErrIdleWait) /\
  (0 < MaxExecutionTime o -> 0 < IdleWait o -> NumGoroutines o <= 0 ->
     fst r = Some ErrNumGoroutines) /\
  (ErrMaxExecutionTime <> ErrIdleWait /\
   ErrIdleWait <> ErrNumGoroutines /\
   ErrMaxExecutionTime <> ErrNumGoroutines) /\
  (fst r <> None -> snd r = w) /\
  (fst r = None ->
     (exists hd,
         handlerMap (snd r) !! queueID = Some hd /\
         h_QueueID hd = queueID /\ h_JobOptions hd = o /\
         forall ctx job dopt st,
           h_HandleFunc hd ctx job dopt st =
           h (context_WithTimeout ctx (MaxExecutionTime o) (time_Now st)) job dopt st) /\
     (forall q, q <> queueID -> handlerMap (snd r) !! q = handlerMap w !! q) /\
     opt (snd r) = opt w /\ cancel (snd r) = cancel w /\ wg (snd r) = wg w /\
     forall h2 o2,
       Validate o2 = None ->
       snd (RegisterWithContext (snd r) queueID h2 o2) =
       snd (RegisterWithContext w queueID h2 o2)) /\
  (forall hf : HandleFunc,
      Register w queueID hf o =
      RegisterWithContext w queueID (fun _ job dopt => hf job dopt) o).
Proof.
  intros r. subst r.
  destruct (Validate_cases o) as (Hc1 & Hc2 & Hc3).
  pose proof (Validate_None o) as Hnone.
  destruct (Validate o) as [err|] eqn:Hv.
  - rewrite (RegisterWithContext_refused w queueID h o err Hv). simpl.
    assert (Hbad : MaxExecutionTime o <= 0 \/ IdleWait o <= 0 \/ NumGoroutines o <= 0).
    { destruct (Z.leb_spec (MaxExecutionTime o) 0); [lia|].
      destruct (Z.leb_spec (IdleWait o) 0); [lia|].
      destruct (Z.leb_spec (NumGoroutines o) 0); [lia|].
      assert (Some err = None) by (apply Hnone; lia). discriminate. }
    repeat split; auto; try discriminate; try congruence.
  - destruct (RegisterWithContext_accepted w queueID h o Hv)
      as (hd & Heq & Hq & Ho & Hf).
    rewrite Heq. simpl.
    destruct Hnone as [Hpos _]. specialize (Hpos eq_refl).
    split; [split; [congruence | lia]|].
    split; [lia|]. split; [lia|]. split; [lia|].
    split; [repeat split; discriminate|].
    split; [congruence|].
    split; [|reflexivity].
    intros _. split.
    { exists hd. split; [apply lookup_insert_eq | auto]. }
    split; [intros q Hq'; apply lookup_insert_ne; congruence|].
    repeat split.
    intros h2 o2 Hv2.
    unfold RegisterWithContext. rewrite Hv2. simpl.
    rewrite insert_insert_eq. reflexivity.
Qed.

Lemma never_started_fields (w : @Worker Σ Rand) :
  never_started w -> cancel w = None /\ wg w = 0.
Proof.
  induction 1 as [o | w queueID h o Hw [IHc IHw]].
  - split; reflexivity.
  - unfold RegisterWithContext. destruct (Validate o); simpl; auto.
Qed.

(** C10.  On a worker on which [Start] was never called, [Stop]
    returns at once (it does not wait on the wait group) and leaves
    the worker as it was. *)
Theorem Stop_never_started (w : @Worker Σ Rand) :
  never_started w -> Stop w = Stopped w.
Proof.
  intros Hw. destruct (never_started_fields w Hw) as [Hc Hg].
  unfold Stop. rewrite Hc, Hg. reflexivity.
Qed.

(** After [Start], [Stop] cancels the scope and has as many loops to
    wait for as [Start] launched. *)
Lemma Stop_after_Start (w : @Worker Σ Rand) :
  wg (Start w) <> 0 ->
  Stop (Start w) =
  Waiting (mkWorker (opt w) (Some tt) true (wg (Start w)) (handlerMap w)).
Proof.
  intros Hg. apply Z.eqb_neq in Hg.
  unfold Stop. simpl cancel. cbv iota beta.
  change (wg (mkWorker (opt (Start w)) (Some tt) true (wg (Start w))
                       (handlerMap (Start w))))
    with (wg (Start w)).
  rewrite Hg. reflexivity.
Qed.

End Registry.

(** A new worker with one registered queue, stopped before any start. *)
Lemma Stop_never_started_witness :
  let w := snd (Register (NewWorker Examples.wopts) "q" Examples.okHandler
                         (Examples.jopts Second Second 1)) in
  never_started w /\ Stop w = Stopped w.
Proof.
  intros w.
  assert (Hw : never_started w).
  { unfold w, Register. apply ns_register. apply ns_new. }
  split; [exact Hw | exact (Stop_never_started w Hw)].
Defined.

(** ** The ack flusher: [flush] *)

Section Flush.

Context {Σ Rand : Type}.

Lemma queue_Ack_eq (queue : @Queue Σ) j o (st : @State Σ Rand) :
  queue_Ack queue j o st =
  (fst (Ack queue j o (ext st)),
   log (set_ext st (snd (Ack queue j o (ext st)))) (EvAck j o)).
Proof. unfold queue_Ack. destruct (Ack queue j o (ext st)); reflexivity. Qed.

Lemma ackEach_spec (queue : @Queue Σ) (o : AckOptions.t) (js : list Job) :
  forall st : @State Σ Rand,
    let r := ackEach queue o js st in
    same_frame st (snd r) /\ ackJobs (snd r) = ackJobs st /\
    ((fst r = None /\
      acked queue o js (ext st) (ext (snd r)) /\
      calls (snd r) = calls st ++ map (fun j => EvAck j o) js)
     \/
     (exists pre j post s err,
         js = pre ++ j :: post /\
         acked queue o pre (ext st) s /\
         Ack queue j o s = (Some err, ext (snd r)) /\
         fst r = Some err /\
         calls (snd r) = calls st ++ map (fun j => EvAck j o) (pre ++ [j]))).
Proof.
  induction js as [|j js IH]; intros st r.
  - subst r. simpl. split; [repeat split|]. split; [reflexivity|].
    left. split; [reflexivity|]. split; [constructor|].
    symmetry. apply app_nil_r.
  - subst r. cbn [ackEach]. rewrite queue_Ack_eq.
    destruct (Ack queue j o (ext st)) as [e s1] eqn:Hack. cbn [fst snd].
    destruct e as [err|].
    + cbn [fst snd]. split; [repeat split|]. split; [reflexivity|].
      right. exists [], j, js, (ext st), err. simpl.
      repeat split; [constructor | exact Hack].
    + specialize (IH (log (set_ext st s1) (EvAck j o))). cbv zeta in IH.
      destruct (ackEach queue o js (log (set_ext st s1) (EvAck j o)))
        as [e2 st2] eqn:Hrest.
      cbn [fst snd] in *.
      destruct IH as (Hframe & Hbuf & Hcases).
      split; [exact Hframe|]. split; [exact Hbuf|].
      destruct Hcases as [(He & Hacked & Hcalls) | Hfail].
      * left. split; [exact He|]. split.
        { econstructor; [exact Hack | exact Hacked]. }
        rewrite Hcalls. simpl. rewrite <- app_assoc. reflexivity.
      * destruct Hfail as (pre & j' & post & s & err & Hjs & Hacked & Hbad & He & Hcalls).
        right. exists (j :: pre), j', post, s, err.
        split; [simpl; congruence|].
        split; [econstructor; [exact Hack | exact Hacked]|].
        split; [exact Hbad|]. split; [exact He|].
        rewrite Hcalls. simpl. rewrite <- app_assoc. reflexivity.
Qed.

(** C9.  With a bulk-capable backend a flush makes one [BulkAck] call
    with the whole buffer; its error, if any, is the result and the
    buffer stays, otherwise the buffer becomes empty.  Without bulk
    support a flush acknowledges the jobs one at a time in buffer
    order: either all succeed and the buffer becomes empty, or the
    first failing [Ack] ends the flush, its error is the result, no
    later job is acknowledged, and the buffer stays as it was (so
    every job not yet acknowledged is still in it). *)
Theorem flush_spec (queue : @Queue Σ) (ns : string) (h : @handler Σ Rand)
        (st : @State Σ Rand) :
  let o := AckOptions.mk ns (h_QueueID h) in
  let r := flush queue ns h st in
  same_frame st (snd r) /\
  (forall b, asBulkDequeuer queue = Some b ->
     calls (snd r) = calls st ++ [EvBulkAck (ackJobs st) o] /\
     fst r = fst (BulkAck b (ackJobs st) o (ext st)) /\
     ext (snd r) = snd (BulkAck b (ackJobs st) o (ext st)) /\
     ackJobs (snd r) = match fst r with
                       | None => []
                       | Some _ => ackJobs st
                       end) /\
  (asBulkDequeuer queue = None ->
     (fst r = None /\ ackJobs (snd r) = [] /\
      acked queue o (ackJobs st) (ext st) (ext (snd r)) /\
      calls (snd r) = calls st ++ map (fun j => EvAck j o) (ackJobs st))
     \/
     (exists pre j post s err,
         ackJobs st = pre ++ j :: post /\
         acked queue o pre (ext st) s /\
         Ack queue j o s = (Some err, ext (snd r)) /\
         fst r = Some err /\
         ackJobs (snd r) = ackJobs st /\
         (forall x, In x (j :: post) -> In x (ackJobs (snd r))) /\
         calls (snd r) = calls st ++ map (fun j => EvAck j o) (pre ++ [j]))).
Proof.
  intros o r. subst r. unfold flush. fold o.
  destruct (asBulkDequeuer queue) as [b|] eqn:Hb.
  - unfold bulk_BulkAck.
    destruct (BulkAck b (ackJobs st) o (ext st)) as [e s1] eqn:Hack.
    split.
    { destruct e; repeat split. }
    split; [|discriminate].
    intros b' Hb'. injection Hb' as <-. rewrite Hack.
    destruct e; repeat split.
  - pose proof (ackEach_spec queue o (ackJobs st) st) as Hspec. cbv zeta in Hspec.
    destruct (ackEach queue o (ackJobs st) st) as [e st1] eqn:Hrun.
    cbn [fst snd] in Hspec. destruct Hspec as (Hframe & Hbuf & Hcases).
    split.
    { destruct e; [exact Hframe|]. destruct Hframe as (?&?&?&?). repeat split; assumption. }
    split; [discriminate|]. intros _.
    destruct Hcases as [(He & Hacked & Hcalls) | Hfail].
    + subst e. left. repeat split; assumption.
    + destruct Hfail as (pre & j & post & s & err & Hjs & Hacked & Hbad & He & Hcalls).
      subst e. right. exists pre, j, post, s, err. cbn [fst snd].
      repeat split; try assumption.
      intros x Hx. rewrite Hbuf, Hjs. apply in_or_app. right. exact Hx.
Qed.

End Flush.

(** Two flushes on concrete backends: the bulk one passes both waiting
    jobs in one call and empties the buffer; the one-by-one flush stops
    at the job the backend refuses and keeps the buffer. *)
Example flush_examples :
  let buffered js := @mkState Examples.Mem unit [] 5 tt [] 1 [] js in
  let o := AckOptions.mk "ns" "q" in
  flush Examples.bulkQueue "ns" (Examples.hd Second)
        (buffered [Examples.job1; Examples.job2]) =
    (None, mkState [] 5 tt [EvBulkAck [Examples.job1; Examples.job2] o] 1 [] []) /\
  flush Examples.pickyQueue "ns" (Examples.hd Second)
        (buffered [Examples.job1; Examples.jobBad; Examples.job2]) =
    (Some Examples.errBackend,
     mkState [] 5 tt [EvAck Examples.job1 o; EvAck Examples.jobBad o] 1 []
             [Examples.job1; Examples.jobBad; Examples.job2]).
Proof. split; reflexivity. Qed.

(** ** The dequeue adapter: [getDequeueFunc] *)

Section Adapter.

Context {Σ Rand : Type}.

(** Without the bulk capability the adapter is the backend's
    [Dequeue]. *)
Lemma getDequeueFunc_single (queue : @Queue Σ) o (st : @State Σ Rand) :
  asBulkDequeuer queue = None ->
  getDequeueFunc queue o st =
  (Ret (fst (Dequeue queue o (ext st))),
   log (set_ext st (snd (Dequeue queue o (ext st)))) (EvDequeue o)).
Proof.
  intros Hb. unfold getDequeueFunc. rewrite Hb. unfold queue_Dequeue.
  destruct (Dequeue queue o (ext st)); reflexivity.
Qed.

(** A non-empty buffer is served from its head, without a call. *)
Lemma getDequeueFunc_buffered (queue : @Queue Σ) b o (st : @State Σ Rand) j rest :
  asBulkDequeuer queue = Some b ->
  jobs st = j :: rest ->
  getDequeueFunc queue o st = (Ret (inl j), set_jobs st rest).
Proof.
  intros Hb Hj. unfold getDequeueFunc. rewrite Hb, Hj.
  change (Z.of_nat (length (j :: rest)) =? 0) with false.
  cbv iota beta. rewrite Hj. reflexivity.
Qed.

(** An empty buffer is refilled by one [BulkDequeue] call. *)
Lemma getDequeueFunc_refill (queue : @Queue Σ) b o (st : @State Σ Rand) :
  asBulkDequeuer queue = Some b ->
  jobs st = [] ->
  DequeueOptions.InvisibleSec o <> 0 ->
  let inv := DequeueOptions.InvisibleSec o in
  let bulkOpt := DequeueOptions.set_InvisibleSec o (mul64 inv (bulkCount inv)) in
  let st1 := log (set_ext st (snd (BulkDequeue b (bulkCount inv) bulkOpt (ext st))))
                 (EvBulkDequeue (bulkCount inv) bulkOpt) in
  getDequeueFunc queue o st =
  match fst (BulkDequeue b (bulkCount inv) bulkOpt (ext st)) with
  | inr err => (Ret (inr err), set_jobs st1 [])
  | inl [] => (Panic indexOutOfRange0, set_jobs st1 [])
  | inl (j :: rest) => (Ret (inl j), set_jobs st1 rest)
  end.
Proof.
  intros Hb Hj Hinv inv bulkOpt st1.
  unfold getDequeueFunc. rewrite Hb, Hj. cbn [length Z.of_nat Z.eqb].
  apply Z.eqb_neq in Hinv. rewrite Hinv.
  unfold bulk_BulkDequeue. fold inv. fold (bulkCount inv). fold bulkOpt.
  destruct (BulkDequeue b (bulkCount inv) bulkOpt (ext st)) as [[js|err] s1] eqn:Hcall;
    cbn [fst snd] in *; subst st1; [destruct js|]; reflexivity.
Qed.

Lemma bulkCount_positive (inv : Z) :
  0 < inv -> inv <= int64_max ->
  bulkCount inv = Z.max 1 (60 / inv) /\
  mul64 inv (bulkCount inv) = inv * Z.max 1 (60 / inv).
Proof.
  intros Hpos Hmax. unfold bulkCount.
  assert (Hq : quot64 60 inv = 60 / inv).
  { apply quot64_nonneg; [lia | lia | int64_lia]. }
  rewrite Hq.
  assert (Hdiv : 0 <= 60 / inv <= 60).
  { split; [apply Z.div_pos; lia|].
    apply Z.div_le_upper_bound; nia. }
  assert (Hprod : inv * (60 / inv) <= 60)
    by (apply Z.mul_div_le; lia).
  unfold int64_max in Hmax.
  destruct (Z.leb_spec (60 / inv) 0).
  - replace (Z.max 1 (60 / inv)) with 1 by lia. split; [reflexivity|].
    apply mul64_small. int64_lia.
  - replace (Z.max 1 (60 / inv)) with (60 / inv) by lia. split; [reflexivity|].
    apply mul64_small. int64_lia.
Qed.

(** Serving from the buffer: as many calls as there are buffered jobs
    return them in order, touch nothing else, and leave the buffer
    empty. *)
Lemma dequeueAll_buffered (queue : @Queue Σ) b (js : list Job) :
  asBulkDequeuer queue = Some b ->
  forall (os : list DequeueOptions.t) (st : @State Σ Rand),
    jobs st = js ->
    length os = length js ->
    dequeueAll (getDequeueFunc queue) os st =
    (map (fun j => Ret (inl j)) js, set_jobs st []).
Proof.
  intros Hb. induction js as [|j js IH]; intros os st Hj Hlen.
  - destruct os; [|discriminate]. simpl. destruct st; simpl in *. subst. reflexivity.
  - destruct os as [|o os]; [discriminate|]. cbn [dequeueAll].
    rewrite (getDequeueFunc_buffered queue b o st j js Hb Hj).
    rewrite (IH os (set_jobs st js) eq_refl) by (simpl in Hlen; lia).
    reflexivity.
Qed.

(** C7.  With a bulk-capable backend, a positive InvisibleSec and an
    empty prefetch buffer, the adapter makes exactly one BulkDequeue
    call, for count = max 1 (60 / InvisibleSec) jobs, with options
    that carry InvisibleSec * count and are otherwise the caller's;
    an error of that call is returned as it is; the jobs it returns
    are then handed out one per call, first in first out, with no
    further backend call, until the buffer is empty again. *)
Theorem getDequeueFunc_prefetch (queue : @Queue Σ) (b : BulkDequeuer)
        (o : DequeueOptions.t) (st : @State Σ Rand) :
  asBulkDequeuer queue = Some b ->
  0 < DequeueOptions.InvisibleSec o ->
  DequeueOptions.InvisibleSec o <= int64_max ->
  jobs st = [] ->
  let inv := DequeueOptions.InvisibleSec o in
  let count := Z.max 1 (60 / inv) in
  let bulkOpt :=
    DequeueOptions.mk (DequeueOptions.Namespace o) (DequeueOptions.QueueID o)
                      (DequeueOptions.At o) (inv * count) in
  let call := BulkDequeue b count bulkOpt (ext st) in
  let st1 := log (set_ext st (snd call)) (EvBulkDequeue count bulkOpt) in
  snd (getDequeueFunc queue o st) = set_jobs st1 (tl match fst call with
                                                     | inl js => js
                                                     | inr _ => []
                                                     end) /\
  (forall err, fst call = inr err ->
               fst (getDequeueFunc queue o st) = Ret (inr err)) /\
  (forall j rest, fst call = inl (j :: rest) ->
     getDequeueFunc queue o st = (Ret (inl j), set_jobs st1 rest) /\
     forall os, length os = length rest ->
       dequeueAll (getDequeueFunc queue) (o :: os) st =
       (map (fun j => Ret (inl j)) (j :: rest), set_jobs st1 [])).
Proof.
  intros Hb Hpos Hmax Hj inv count bulkOpt call st1.
  pose proof (getDequeueFunc_refill queue b o st Hb Hj ltac:(lia)) as Hrefill.
  cbv zeta in Hrefill. fold inv in Hrefill.
  destruct (bulkCount_positive inv Hpos Hmax) as [Hc Hm].
  rewrite Hm, Hc in Hrefill. fold count in Hrefill.
  change (DequeueOptions.set_InvisibleSec o (inv * count)) with bulkOpt in Hrefill.
  fold call in Hrefill. fold st1 in Hrefill.
  split; [|split].
  - rewrite Hrefill. destruct (fst call) as [[|j rest]|err]; reflexivity.
  - intros err Herr. rewrite Hrefill, Herr. reflexivity.
  - intros j rest Hjs. rewrite Hjs in Hrefill. split; [exact Hrefill|].
    intros os Hlen. cbn [dequeueAll]. rewrite Hrefill.
    rewrite (dequeueAll_buffered queue b rest Hb os (set_jobs st1 rest) eq_refl Hlen).
    reflexivity.
Qed.

(** When [BulkDequeue] answers an empty slice and no error, the
    adapter indexes the empty buffer: it panics, where on the
    empty-queue error it returns that error. *)
Lemma getDequeueFunc_on_empty_slice (queue : @Queue Σ) b o (st : @State Σ Rand) :
  asBulkDequeuer queue = Some b ->
  jobs st = [] ->
  DequeueOptions.InvisibleSec o <> 0 ->
  let inv := DequeueOptions.InvisibleSec o in
  let bulkOpt := DequeueOptions.set_InvisibleSec o (mul64 inv (bulkCount inv)) in
  let call := BulkDequeue b (bulkCount inv) bulkOpt (ext st) in
  (fst call = inl [] ->
   fst (getDequeueFunc queue o st) = Panic indexOutOfRange0) /\
  (fst call = inr ErrEmptyQueue ->
   fst (getDequeueFunc queue o st) = Ret (inr ErrEmptyQueue)).
Proof.
  intros Hb Hj Hinv inv bulkOpt call.
  pose proof (getDequeueFunc_refill queue b o st Hb Hj Hinv) as Hrefill.
  cbv zeta in Hrefill. fold inv bulkOpt call in Hrefill.
  split; intros Hcall; rewrite Hrefill, Hcall; reflexivity.
Qed.

End Adapter.

(** The in-memory bulk backend holding two jobs, at InvisibleSec = 4:
    one call for 15 jobs with InvisibleSec 60, then both jobs in
    order. *)
Lemma getDequeueFunc_prefetch_witness :
  let o := Examples.dopts 4 in
  let bulkOpt := Examples.dopts 60 in
  asBulkDequeuer Examples.bulkQueue = Some Examples.memBulk /\
  0 < DequeueOptions.InvisibleSec o /\
  DequeueOptions.InvisibleSec o <= int64_max /\
  jobs Examples.st2 = [] /\
  dequeueAll (getDequeueFunc Examples.bulkQueue) [o; o] Examples.st2 =
  ([Ret (inl Examples.job1); Ret (inl Examples.job2)],
   mkState [] 5 tt [EvBulkDequeue 15 bulkOpt] 1 [] []).
Proof.
  intros o bulkOpt.
  assert (H1 : asBulkDequeuer Examples.bulkQueue = Some Examples.memBulk) by reflexivity.
  assert (H2 : 0 < DequeueOptions.InvisibleSec o) by reflexivity.
  assert (H3 : DequeueOptions.InvisibleSec o <= int64_max) by (vm_compute; discriminate).
  assert (H4 : jobs Examples.st2 = []) by reflexivity.
  destruct (getDequeueFunc_prefetch Examples.bulkQueue Examples.memBulk o
              Examples.st2 H1 H2 H3 H4) as (_ & _ & Hserve).
  destruct (Hserve Examples.job1 [Examples.job2] eq_refl) as [_ Hall].
  split; [exact H1|]. split; [exact H2|]. split; [exact H3|]. split; [exact H4|].
  exact (Hall [o] eq_refl).
Defined.

(** C2, evaluated.  On an empty queue, a bulk backend that answers an
    empty slice and no error makes the adapter panic with an index out
    of range, and the panic leaves the cycle of the loop; a bulk backend
    that answers the empty-queue error makes the adapter return that
    error. *)
Theorem getDequeueFunc_empty_slice_panics :
  let o := Examples.dopts 4 in
  let w q := @NewWorker Examples.Mem unit (mkWorkerOptions "ns" (Some q) None) in
  Dequeue Examples.sliceQueue o [] = (inr ErrEmptyQueue, []) /\
  BulkDequeue Examples.sliceBulk 15 (Examples.dopts 60) [] = (inl [], []) /\
  fst (getDequeueFunc Examples.sliceQueue o Examples.st0) = Panic indexOutOfRange0 /\
  fst (getDequeueFunc Examples.bulkQueue o Examples.st0) = Ret (inr ErrEmptyQueue) /\
  fst (start_cycle Examples.plainBackOff Examples.stack (w Examples.sliceQueue)
                   context_Background (Examples.hd Second) Examples.st0)
    = Panic indexOutOfRange0 /\
  fst (start_cycle Examples.plainBackOff Examples.stack (w Examples.bulkQueue)
                   context_Background (Examples.hd Second) Examples.st0)
    = Ret (Some ErrEmptyQueue).
Proof. repeat split; reflexivity. Qed.

(** ** Errors: do-not-retry and unrecoverable *)

Lemma errors_Is_refl (e : error) : errors_Is e e = true.
Proof. destruct e; cbn [errors_Is]; rewrite bool_decide_eq_true_2; reflexivity. Qed.

Lemma errors_Is_wrapError p msg inner target :
  wrapError p msg inner <> target ->
  errors_Is (wrapError p msg inner) target = errors_Is inner target.
Proof.
  intros Hne. cbn [errors_Is]. rewrite bool_decide_eq_false_2; [reflexivity | exact Hne].
Qed.

(** Whatever matches [ErrUnrecoverable] matches [ErrDoNotRetry]. *)
Lemma unrecoverable_is_do_not_retry (e : error) :
  errors_Is e ErrUnrecoverable = true -> errors_Is e ErrDoNotRetry = true.
Proof.
  induction e as [p s | p msg inner IH]; intros H.
  - cbn [errors_Is] in H.
    destruct (bool_decide_reflect (errorString p s = ErrUnrecoverable)); discriminate.
  - rewrite errors_Is_wrapError by discriminate.
    cbn [errors_Is] in H.
    destruct (bool_decide_reflect (wrapError p msg inner = ErrUnrecoverable)) as [E|_].
    + injection E as _ _ ->. apply errors_Is_refl.
    + apply IH, H.
Qed.

(** A fresh [*errors.errorString] matches no package-level error that
    is not itself. *)
Lemma errors_Is_fresh (n : N) (s : string) (target : error) :
  (forall s', target <> errorString (Alloc n) s') ->
  errors_Is (errorString (Alloc n) s) target = false.
Proof.
  intros Hne. cbn [errors_Is]. rewrite bool_decide_eq_false_2; [reflexivity|].
  intros E. exact (Hne s (eq_sym E)).
Qed.

Lemma last_cons_any {A} (l : list A) (a d d' : A) :
  List.last (a :: l) d = List.last (a :: l) d'.
Proof.
  revert a. induction l as [|x l IH]; intros a; [reflexivity|].
  change (List.last (x :: l) d = List.last (x :: l) d'). apply IH.
Qed.

Lemma last_cons_default {A} (l : list A) (a d : A) :
  List.last (a :: l) d = List.last l a.
Proof.
  destruct l as [|x l]; [reflexivity|].
  change (List.last (x :: l) d = List.last (x :: l) a). apply last_cons_any.
Qed.

Lemma string_app_assoc (a b c : string) : (a +:+ b) +:+ c = a +:+ b +:+ c.
Proof.
  induction a as [|x a IH]; [reflexivity|].
  change (String x ((a +:+ b) +:+ c) = String x (a +:+ b +:+ c)). f_equal. exact IH.
Qed.

Lemma string_app_nil_r (a : string) : a +:+ EmptyString = a.
Proof.
  induction a as [|x a IH]; [reflexivity|].
  change (String x (a +:+ EmptyString) = String x a). f_equal. exact IH.
Qed.

(** The message of a caught panic shows the panic value and the stack. *)
Lemma panicMessage_contains (v : PanicValue) (stack : string) :
  contains (panicMessage v stack) (fmt_v v) /\
  contains (panicMessage v stack) stack.
Proof.
  unfold contains, panicMessage. split.
  - exists "panic: ", (newline +:+ newline +:+ stack). reflexivity.
  - exists ("panic: " +:+ fmt_v v +:+ newline +:+ newline), EmptyString.
    rewrite string_app_nil_r, !string_app_assoc. reflexivity.
Qed.

(** ** The handle pipeline: [catchPanic] and [retry] *)

Section Retry.

Context {Σ Rand : Type}.
Variable NextBackOff :
  ExponentialBackOff -> Rand -> Duration * ExponentialBackOff * Rand.
Variable debug_Stack : Σ -> string.

Abbreviation retry' := (retry NextBackOff).
Abbreviation catchPanic' := (catchPanic debug_Stack).

(** The loop of [retry] ends on the last value of the schedule. *)
Lemma backoffLoop_last (n : nat) :
  forall d0 b (r : Rand),
    fst (fst (backoffLoop NextBackOff n d0 b r)) =
    List.last (schedule NextBackOff n b r) d0.
Proof.
  induction n as [|n IH]; intros d0 b r; [reflexivity|].
  cbn [backoffLoop schedule].
  destruct (NextBackOff b r) as [[d b1] r1].
  rewrite IH. symmetry. apply last_cons_default.
Qed.

Lemma retry_success (queue : @Queue Σ) (f : HandleFunc) job o (st : @State Σ Rand) job1 st1 :
  f job o st = (Ret None, job1, st1) ->
  retry' queue f job o st = (Ret None, job1, st1).
Proof. intros Hf. unfold retry. rewrite Hf. reflexivity. Qed.

Lemma retry_unrecoverable (queue : @Queue Σ) (f : HandleFunc) job o
      (st : @State Σ Rand) err job1 st1 :
  f job o st = (Ret (Some err), job1, st1) ->
  errors_Is err ErrUnrecoverable = true ->
  retry' queue f job o st = (Ret None, job1, st1).
Proof. intros Hf Hu. unfold retry. rewrite Hf, Hu. reflexivity. Qed.

Lemma retry_do_not_retry (queue : @Queue Σ) (f : HandleFunc) job o
      (st : @State Σ Rand) err job1 st1 :
  f job o st = (Ret (Some err), job1, st1) ->
  errors_Is err ErrUnrecoverable = false ->
  errors_Is err ErrDoNotRetry = true ->
  retry' queue f job o st = (Ret (Some err), job1, st1).
Proof. intros Hf Hu Hd. unfold retry. rewrite Hf, Hu, Hd. reflexivity. Qed.

Lemma retry_panic (queue : @Queue Σ) (f : HandleFunc) job o
      (st : @State Σ Rand) v job1 st1 :
  f job o st = (Panic v, job1, st1) ->
  retry' queue f job o st = (Panic v, job1, st1).
Proof. intros Hf. unfold retry. rewrite Hf. reflexivity. Qed.

(** The retry path, written out. *)
Lemma retry_retryable (queue : @Queue Σ) (f : HandleFunc) job o
      (st : @State Σ Rand) err job1 st1 :
  f job o st = (Ret (Some err), job1, st1) ->
  errors_Is err ErrUnrecoverable = false ->
  errors_Is err ErrDoNotRetry = false ->
  let now := time_Now st1 in
  let k := add64 (Retries job1) 1 in
  let run := backoffLoop NextBackOff (Z.to_nat k) 0 (retryBackOff now) (rand st1) in
  let job' := mkJob (ID job1) now (Time_Add now (delay NextBackOff now k (rand st1)))
                    (Payload job1) k (Error err) in
  let eo := EnqueueOptions.mk (DequeueOptions.Namespace o) (DequeueOptions.QueueID o) in
  retry' queue f job o st =
  (Ret (Some err), job',
   log (set_ext (set_rand st1 (snd run)) (snd (Enqueue queue job' eo (ext st1))))
       (EvEnqueue job' eo)).
Proof.
  intros Hf Hu Hd now k run job' eo.
  unfold retry. rewrite Hf, Hu, Hd. fold now.
  change (Retries (set_UpdatedAt
                     (set_LastError (set_Retries job1 (add64 (Retries job1) 1))
                                    (Error err)) now)) with k.
  fold k. fold run.
  assert (Hnext : fst (fst run) = delay NextBackOff now k (rand st1)).
  { unfold run, delay. apply backoffLoop_last. }
  destruct run as [[next b1] r1] eqn:Hrun. cbn [fst snd] in *. rewrite Hnext.
  change (set_EnqueuedAt
            (set_UpdatedAt (set_LastError (set_Retries job1 k) (Error err)) now)
            (Time_Add now (delay NextBackOff now k (rand st1)))) with job'.
  fold eo. unfold queue_Enqueue. cbn [ext set_rand].
  destruct (Enqueue queue job' eo (ext st1)) as [e s2]. reflexivity.
Qed.

(** What [catchPanic] makes of a panic. *)
Lemma catchPanic_panic (f : HandleFunc) job o (st : @State Σ Rand) v job1 st1 :
  f job o st = (Panic v, job1, st1) ->
  catchPanic' f job o st =
  (Ret (Some (errorString (Alloc (allocs st1))
                          (panicMessage v (debug_Stack (ext st1))))),
   job1, set_allocs st1 (N.succ (allocs st1))).
Proof. intros Hf. unfold catchPanic. rewrite Hf. reflexivity. Qed.

Lemma catchPanic_returns (f : HandleFunc) job o (st : @State Σ Rand) :
  exists e, fst (fst (catchPanic' f job o st)) = Ret e.
Proof.
  unfold catchPanic. destruct (f job o st) as [[[e|v] job1] st1]; eexists; reflexivity.
Qed.

(** [retry] around a handler that returns also returns: the backend's
    [Enqueue] is a call that returns. *)
Lemma retry_returns (queue : @Queue Σ) (f : HandleFunc) job o (st : @State Σ Rand) :
  (exists e, fst (fst (f job o st)) = Ret e) ->
  exists e, fst (fst (retry' queue f job o st)) = Ret e.
Proof.
  intros [e He]. destruct (f job o st) as [[r job1] st1] eqn:Hf.
  cbn [fst] in He. subst r. destruct e as [err|].
  - destruct (errors_Is err ErrUnrecoverable) eqn:Hu.
    { rewrite (retry_unrecoverable queue f job o st err job1 st1 Hf Hu). eauto. }
    destruct (errors_Is err ErrDoNotRetry) eqn:Hd.
    { rewrite (retry_do_not_retry queue f job o st err job1 st1 Hf Hu Hd). eauto. }
    rewrite (retry_retryable queue f job o st err job1 st1 Hf Hu Hd). eauto.
  - rewrite (retry_success queue f job o st job1 st1 Hf). eauto.
Qed.

(** A cycle whose dequeue yields a job and whose handle pipeline
    returns an error: the job is not appended to the ack buffer. *)
Lemma cycle_handle_error (queue : @Queue Σ) ns (h : @handler Σ Rand) errFunc
      (dequeue : DequeueFunc) (handle : HandleFunc) (st0 st : @State Σ Rand)
      job err job1 st1 :
  dequeue (cycleOptions ns h st0) st0 = (Ret (inl job), st) ->
  handle job (cycleOptions ns h st0) st = (Ret (Some err), job1, st1) ->
  cycle queue ns h errFunc dequeue handle st0 = (Ret (Some err), st1).
Proof. intros Hd Hh. unfold cycle. rewrite Hd, Hh. reflexivity. Qed.

(** A cycle whose handle pipeline returns success: the job is
    appended, and the buffer is flushed when it reaches 1000 jobs. *)
Lemma cycle_handle_success (queue : @Queue Σ) ns (h : @handler Σ Rand) errFunc
      (dequeue : DequeueFunc) (handle : HandleFunc) (st0 st : @State Σ Rand)
      job job1 st1 :
  dequeue (cycleOptions ns h st0) st0 = (Ret (inl job), st) ->
  handle job (cycleOptions ns h st0) st = (Ret None, job1, st1) ->
  let st3 := set_ackJobs st1 (ackJobs st1 ++ [job1]) in
  (Z.of_nat (length (ackJobs st1)) + 1 < 1000 ->
   cycle queue ns h errFunc dequeue handle st0 = (Ret None, st3)) /\
  (1000 <= Z.of_nat (length (ackJobs st1)) + 1 ->
   snd (cycle queue ns h errFunc dequeue handle st0) = tick queue ns h errFunc st3).
Proof.
  intros Hd Hh st3. unfold cycle. rewrite Hd, Hh. fold st3.
  assert (Hlen : Z.of_nat (length (ackJobs st3)) = Z.of_nat (length (ackJobs st1)) + 1).
  { unfold st3. cbn [ackJobs set_ackJobs]. rewrite length_app. simpl. lia. }
  rewrite Hlen. split; intros Hcmp.
  - destruct (Z.leb_spec 1000 (Z.of_nat (length (ackJobs st1)) + 1)); [lia|reflexivity].
  - destruct (Z.leb_spec 1000 (Z.of_nat (length (ackJobs st1)) + 1)); [|lia].
    unfold tick. destruct (flush queue ns h st3) as [[e|] st4]; reflexivity.
Qed.

(** C3.  When the handler fails with an error that matches
    unrecoverable, [retry] returns success and adds no call (no
    re-enqueue), and the cycle appends the job to the ack buffer
    (flushing it at 1000 jobs).  When the error matches do-not-retry
    but not unrecoverable, [retry] returns that error and adds no
    call, and the cycle ends with the state the handler left: no ack,
    no enqueue, nothing appended.  [ErrUnrecoverable] matches
    [ErrDoNotRetry], as does every error that matches
    [ErrUnrecoverable]; [ErrDoNotRetry] does not match
    [ErrUnrecoverable]. *)
Theorem retry_unrecoverable_do_not_retry
        (queue : @Queue Σ) (f : HandleFunc) (job : Job) (o : DequeueOptions.t)
        (st : @State Σ Rand) (err : error) (job1 : Job) (st1 : @State Σ Rand) :
  f job o st = (Ret (Some err), job1, st1) ->
  (errors_Is err ErrUnrecoverable = true ->
     retry' queue f job o st = (Ret None, job1, st1) /\
     forall ns (h : @handler Σ Rand) errFunc (dequeue : DequeueFunc) st0,
       o = cycleOptions ns h st0 ->
       dequeue o st0 = (Ret (inl job), st) ->
       let st3 := set_ackJobs st1 (ackJobs st1 ++ [job1]) in
       (Z.of_nat (length (ackJobs st1)) + 1 < 1000 ->
        cycle queue ns h errFunc dequeue (retry' queue f) st0 = (Ret None, st3)) /\
       (1000 <= Z.of_nat (length (ackJobs st1)) + 1 ->
        snd (cycle queue ns h errFunc dequeue (retry' queue f) st0)
        = tick queue ns h errFunc st3)) /\
  (errors_Is err ErrUnrecoverable = false ->
   errors_Is err ErrDoNotRetry = true ->
     retry' queue f job o st = (Ret (Some err), job1, st1) /\
     forall ns (h : @handler Σ Rand) errFunc (dequeue : DequeueFunc) st0,
       o = cycleOptions ns h st0 ->
       dequeue o st0 = (Ret (inl job), st) ->
       cycle queue ns h errFunc dequeue (retry' queue f) st0 = (Ret (Some err), st1)) /\
  (errors_Is ErrUnrecoverable ErrDoNotRetry = true /\
   errors_Is ErrDoNotRetry ErrUnrecoverable = false /\
   forall e, errors_Is e ErrUnrecoverable = true -> errors_Is e ErrDoNotRetry = true).
Proof.
  intros Hf. split; [|split].
  - intros Hu.
    pose proof (retry_unrecoverable queue f job o st err job1 st1 Hf Hu) as Hr.
    split; [exact Hr|].
    intros ns h errFunc dequeue st0 -> Hd.
    exact (cycle_handle_success queue ns h errFunc dequeue (retry' queue f)
                                st0 st job job1 st1 Hd Hr).
  - intros Hu Hd.
    pose proof (retry_do_not_retry queue f job o st err job1 st1 Hf Hu Hd) as Hr.
    split; [exact Hr|].
    intros ns h errFunc dequeue st0 -> Hdq.
    exact (cycle_handle_error queue ns h errFunc dequeue (retry' queue f)
                              st0 st job err job1 st1 Hdq Hr).
  - split; [reflexivity|]. split; [reflexivity|].
    exact unrecoverable_is_do_not_retry.
Qed.

(** C4.  When the handler fails with an error that matches neither
    do-not-retry nor unrecoverable, [retry] enqueues the job with
    Retries incremented by one (in int64), LastError the error's
    message, UpdatedAt now and EnqueuedAt now + delay(Retries), and
    nothing else changed, under the namespace and queue id of the
    dequeue options; that Enqueue is the only call it adds; it returns
    the handler's error, so the cycle does not append the job to the
    ack buffer; and the error Enqueue returns plays no part: two
    backends whose Enqueue differ only in the error they return give
    the same outcome. *)
Theorem retry_reenqueue
        (queue : @Queue Σ) (f : HandleFunc) (job : Job) (o : DequeueOptions.t)
        (st : @State Σ Rand) (err : error) (job1 : Job) (st1 : @State Σ Rand) :
  f job o st = (Ret (Some err), job1, st1) ->
  errors_Is err ErrUnrecoverable = false ->
  errors_Is err ErrDoNotRetry = false ->
  let now := time_Now st1 in
  let k := add64 (Retries job1) 1 in
  let job' := mkJob (ID job1) now (Time_Add now (delay NextBackOff now k (rand st1)))
                    (Payload job1) k (Error err) in
  let eo := EnqueueOptions.mk (DequeueOptions.Namespace o) (DequeueOptions.QueueID o) in
  let r := retry' queue f job o st in
  fst (fst r) = Ret (Some err) /\
  snd (fst r) = job' /\
  (in_int64 (Retries job1) -> Retries job1 < int64_max ->
   Retries job' = Retries job1 + 1) /\
  ext (snd r) = snd (Enqueue queue job' eo (ext st1)) /\
  calls (snd r) = calls st1 ++ [EvEnqueue job' eo] /\
  (clock (snd r) = clock st1 /\ allocs (snd r) = allocs st1 /\
   jobs (snd r) = jobs st1 /\ ackJobs (snd r) = ackJobs st1) /\
  (forall ns (h : @handler Σ Rand) errFunc (dequeue : DequeueFunc) st0,
      o = cycleOptions ns h st0 ->
      dequeue o st0 = (Ret (inl job), st) ->
      cycle queue ns h errFunc dequeue (retry' queue f) st0 = (Ret (Some err), snd r)) /\
  (forall queue' : @Queue Σ,
      (forall j eo' s, snd (Enqueue queue' j eo' s) = snd (Enqueue queue j eo' s)) ->
      retry' queue' f job o st = r).
Proof.
  intros Hf Hu Hd now k job' eo r.
  pose proof (retry_retryable queue f job o st err job1 st1 Hf Hu Hd) as Hr.
  cbv zeta in Hr. fold now k in Hr. fold job' eo in Hr.
  subst r. rewrite Hr. cbn [fst snd].
  split; [reflexivity|]. split; [reflexivity|].
  split.
  { intros Hin Hlt. unfold job', k. cbn [Retries].
    apply add64_small. int64_lia. }
  split; [reflexivity|]. split; [reflexivity|].
  split; [repeat split|].
  split.
  - intros ns h errFunc dequeue st0 Ho Hdq.
    pose proof (cycle_handle_error queue ns h errFunc dequeue (retry' queue f)
                                   st0 st job err job') as Hc.
    rewrite <- Ho in Hc. apply Hc; assumption.
  - intros queue' Hsame.
    pose proof (retry_retryable queue' f job o st err job1 st1 Hf Hu Hd) as Hr'.
    cbv zeta in Hr'. fold now k in Hr'. fold job' eo in Hr'.
    rewrite Hr', Hsame. reflexivity.
Qed.

(** C6.  When the inner handler panics, [catchPanic] returns an
    ordinary error instead: a fresh error whose message is
    "panic: ", the panic value, an empty line and the stack trace, so
    it shows both.  That error matches neither unrecoverable nor
    do-not-retry, so [retry] around [catchPanic] re-enqueues the job
    with Retries incremented and returns the error.  Whatever the
    inner handler does, [retry] around [catchPanic], and so the handle
    pipeline [start] builds, returns: no panic of the handler or of
    the user's handle middleware reaches the loop. *)
Theorem catchPanic_inside_retry
        (queue : @Queue Σ) (f : HandleFunc) (job : Job) (o : DequeueOptions.t)
        (st : @State Σ Rand) (v : PanicValue) (job1 : Job) (st1 : @State Σ Rand) :
  f job o st = (Panic v, job1, st1) ->
  let err := errorString (Alloc (allocs st1))
                         (panicMessage v (debug_Stack (ext st1))) in
  let now := time_Now st1 in
  let k := add64 (Retries job1) 1 in
  let job' := mkJob (ID job1) now (Time_Add now (delay NextBackOff now k (rand st1)))
                    (Payload job1) k (Error err) in
  let eo := EnqueueOptions.mk (DequeueOptions.Namespace o) (DequeueOptions.QueueID o) in
  let r := retry' queue (catchPanic' f) job o st in
  catchPanic' f job o st =
    (Ret (Some err), job1, set_allocs st1 (N.succ (allocs st1))) /\
  contains (Error err) (fmt_v v) /\
  contains (Error err) (debug_Stack (ext st1)) /\
  errors_Is err ErrUnrecoverable = false /\
  errors_Is err ErrDoNotRetry = false /\
  fst r = (Ret (Some err), job') /\
  calls (snd r) = calls st1 ++ [EvEnqueue job' eo] /\
  ackJobs (snd r) = ackJobs st1 /\
  (forall (g : HandleFunc) job0 o0 (st0 : @State Σ Rand),
      exists e, fst (fst (retry' queue (catchPanic' g) job0 o0 st0)) = Ret e) /\
  (forall ctx (h : @handler Σ Rand) job0 o0 (st0 : @State Σ Rand),
      exists e,
        fst (fst (start_handle NextBackOff debug_Stack queue ctx h job0 o0 st0)) = Ret e).
Proof.
  intros Hf err now k job' eo r.
  pose proof (catchPanic_panic f job o st v job1 st1 Hf) as Hc. fold err in Hc.
  assert (Hu : errors_Is err ErrUnrecoverable = false).
  { apply errors_Is_fresh. intros s'. discriminate. }
  assert (Hd : errors_Is err ErrDoNotRetry = false).
  { apply errors_Is_fresh. intros s'. discriminate. }
  pose proof (retry_retryable queue (catchPanic' f) job o st err job1 _ Hc Hu Hd) as Hr.
  cbv zeta in Hr.
  change (time_Now (set_allocs st1 (N.succ (allocs st1)))) with now in Hr.
  change (rand (set_allocs st1 (N.succ (allocs st1)))) with (rand st1) in Hr.
  fold k in Hr. fold job' eo in Hr.
  destruct (panicMessage_contains v (debug_Stack (ext st1))) as [Hv Hs].
  split; [exact Hc|]. split; [exact Hv|]. split; [exact Hs|].
  split; [exact Hu|]. split; [exact Hd|].
  subst r. rewrite Hr. cbn [fst snd].
  split; [reflexivity|]. split; [reflexivity|]. split; [reflexivity|].
  split.
  - intros g job0 o0 st0. apply retry_returns, catchPanic_returns.
  - intros ctx h job0 o0 st0. unfold start_handle.
    apply retry_returns, catchPanic_returns.
Qed.

End Retry.

(** On the in-memory backend: a handler that fails with [ErrUnrecoverable] is answered with success
    and no call, a handler that fails with [ErrDoNotRetry] with that
    error and no call. *)
Lemma retry_unrecoverable_do_not_retry_witness :
  let run e := retry Examples.plainBackOff Examples.memQueue (Examples.failWith e)
                     Examples.job1 (Examples.dopts 4) Examples.st0 in
  Examples.failWith ErrUnrecoverable Examples.job1 (Examples.dopts 4) Examples.st0
    = (Ret (Some ErrUnrecoverable), Examples.job1, Examples.st0) /\
  run ErrUnrecoverable = (Ret None, Examples.job1, Examples.st0) /\
  run ErrDoNotRetry = (Ret (Some ErrDoNotRetry), Examples.job1, Examples.st0).
Proof.
  intros run.
  assert (H1 : Examples.failWith ErrUnrecoverable Examples.job1 (Examples.dopts 4)
                                 Examples.st0
               = (Ret (Some ErrUnrecoverable), Examples.job1, Examples.st0))
    by reflexivity.
  assert (H2 : Examples.failWith ErrDoNotRetry Examples.job1 (Examples.dopts 4)
                                 Examples.st0
               = (Ret (Some ErrDoNotRetry), Examples.job1, Examples.st0))
    by reflexivity.
  split; [exact H1|]. split.
  - exact (proj1 (proj1 (retry_unrecoverable_do_not_retry
                           Examples.plainBackOff Examples.memQueue _ _ _ _ _ _ _ H1)
                        eq_refl)).
  - exact (proj1 (proj1 (proj2 (retry_unrecoverable_do_not_retry
                                  Examples.plainBackOff Examples.memQueue _ _ _ _ _ _ _ H2))
                        eq_refl eq_refl)).
Defined.

(** On a backend that refuses every enqueue: the handler fails with "boom" and the job is enqueued with Retries 1,
    two seconds from now, all the same. *)
Lemma retry_reenqueue_witness :
  let f := Examples.failWith Examples.errBoom in
  let r := retry Examples.plainBackOff Examples.pickyQueue f
                 Examples.job1 (Examples.dopts 4) Examples.st0 in
  let job' := mkJob "a" 5 (5 + 2 * Second) [] 1 "boom" in
  f Examples.job1 (Examples.dopts 4) Examples.st0
    = (Ret (Some Examples.errBoom), Examples.job1, Examples.st0) /\
  errors_Is Examples.errBoom ErrUnrecoverable = false /\
  errors_Is Examples.errBoom ErrDoNotRetry = false /\
  fst r = (Ret (Some Examples.errBoom), job') /\
  calls (snd r) = [EvEnqueue job' (EnqueueOptions.mk "ns" "q")].
Proof.
  intros f r job'.
  assert (H1 : f Examples.job1 (Examples.dopts 4) Examples.st0
               = (Ret (Some Examples.errBoom), Examples.job1, Examples.st0))
    by reflexivity.
  assert (H2 : errors_Is Examples.errBoom ErrUnrecoverable = false) by reflexivity.
  assert (H3 : errors_Is Examples.errBoom ErrDoNotRetry = false) by reflexivity.
  destruct (retry_reenqueue Examples.plainBackOff Examples.pickyQueue f _ _ _ _ _ _
                            H1 H2 H3) as (Ha & Hb & _ & _ & Hc & _).
  split; [exact H1|]. split; [exact H2|]. split; [exact H3|]. split.
  - fold r in Ha, Hb. destruct r as [[x y] z]. cbn [fst snd] in *.
    rewrite Ha, Hb. reflexivity.
  - exact Hc.
Defined.

(** A handler that panics with "oops", under the handle pipeline. *)
Lemma catchPanic_inside_retry_witness :
  let f := Examples.panicHandler in
  let msg := "panic: oops" +:+ newline +:+ newline +:+ "goroutine 7 [running]:" in
  let err := errorString (Alloc 1) msg in
  let job' := mkJob "a" 5 (5 + 2 * Second) [] 1 msg in
  let r := retry Examples.plainBackOff Examples.memQueue
                 (catchPanic Examples.stack f)
                 Examples.job1 (Examples.dopts 4) Examples.st0 in
  f Examples.job1 (Examples.dopts 4) Examples.st0
    = (Panic (PString "oops"), Examples.job1, Examples.st0) /\
  fst r = (Ret (Some err), job') /\
  calls (snd r) = [EvEnqueue job' (EnqueueOptions.mk "ns" "q")].
Proof.
  intros f msg err job' r.
  assert (H1 : f Examples.job1 (Examples.dopts 4) Examples.st0
               = (Panic (PString "oops"), Examples.job1, Examples.st0))
    by reflexivity.
  destruct (catchPanic_inside_retry Examples.plainBackOff Examples.stack
              Examples.memQueue f _ _ _ _ _ _ H1)
    as (_ & _ & _ & _ & _ & Ha & Hb & _).
  split; [exact H1|]. split; [exact Ha | exact Hb].
Defined.

(** * Further properties of the code *)

(** ** The registry between [NewWorker], registrations, [Start] and [Stop] *)

Section RegistryLifecycle.

Context {Σ Rand : Type}.

(** Every record of a registry built by registrations sits under its
    own queue id and carries validated options. *)
Lemma never_started_valid (w : @Worker Σ Rand) :
  never_started w ->
  forall q hd,
    handlerMap w !! q = Some hd ->
    h_QueueID hd = q /\ Validate (h_JobOptions hd) = None.
Proof.
  induction 1 as [o | w queueID h o Hw IH]; intros q hd Hlook.
  - simpl in Hlook. rewrite lookup_empty in Hlook. discriminate.
  - destruct (Validate o) as [err|] eqn:Hv.
    + rewrite (RegisterWithContext_refused w queueID h o err Hv) in Hlook.
      apply IH. exact Hlook.
    + destruct (RegisterWithContext_accepted w queueID h o Hv)
        as (hd' & Heq & Hq & Ho & _).
      rewrite Heq in Hlook. simpl in Hlook.
      destruct (decide (queueID = q)) as [->|Hne].
      * rewrite lookup_insert_eq in Hlook. injection Hlook as <-.
        rewrite Ho. split; [exact Hq | exact Hv].
      * rewrite lookup_insert_ne in Hlook by exact Hne. apply IH. exact Hlook.
Qed.

(** X1.  On a worker built by [NewWorker] and registrations, every
    record of the registry sits under its own queue id and carries
    options that passed validation (so a positive MaxExecutionTime,
    IdleWait and NumGoroutines), whatever was refused in between; and a
    queue id whose registrations were all refused is not in the
    registry. *)
Theorem registry_invariant (w : @Worker Σ Rand) :
  never_started w ->
  forall q hd,
    handlerMap w !! q = Some hd ->
    h_QueueID hd = q /\
    Validate (h_JobOptions hd) = None /\
    0 < MaxExecutionTime (h_JobOptions hd) /\
    0 < IdleWait (h_JobOptions hd) /\
    0 < NumGoroutines (h_JobOptions hd) /\
    forall h o, Validate o <> None ->
                handlerMap (snd (RegisterWithContext w q h o)) !! q = Some hd.
Proof.
  intros Hw q hd Hlook.
  destruct (never_started_valid w Hw q hd Hlook) as [Hq Hv].
  split; [exact Hq|]. split; [exact Hv|].
  pose proof (proj1 (Validate_None (h_JobOptions hd)) Hv) as (H1 & H2 & H3).
  split; [exact H1|]. split; [exact H2|]. split; [exact H3|].
  intros h o Hbad. destruct (Validate o) as [err|] eqn:Ho; [|congruence].
  rewrite (RegisterWithContext_refused w q h o err Ho). exact Hlook.
Qed.

Lemma goroutines_sum_lower (m : gmap string (@handler Σ Rand)) (a : Z) :
  (forall q hd, m !! q = Some hd -> 1 <= goroutines_of hd) ->
  a + Z.of_nat (size m) <= map_fold (fun _ h n => n + goroutines_of h) a m.
Proof.
  revert m.
  apply (map_fold_weak_ind
           (fun r m => (forall q hd, m !! q = Some hd -> 1 <= goroutines_of hd) ->
                       a + Z.of_nat (size m) <= r)).
  - intros _. rewrite map_size_empty. simpl. lia.
  - intros i x m r Hi IH Hall.
    rewrite map_size_insert_None by exact Hi.
    assert (Hx : 1 <= goroutines_of x).
    { apply (Hall i). apply lookup_insert_eq. }
    assert (Hr : a + Z.of_nat (size m) <= r).
    { apply IH. intros q hd Hq. apply (Hall q).
      rewrite lookup_insert_ne; [exact Hq|]. intros ->. congruence. }
    lia.
Qed.

(** X2.  [Start] on such a worker installs a cancel function, keeps the
    registry, and adds to the wait group at least one loop per
    registered queue.  A [Stop] that follows cancels the scope; it
    returns at once when no queue is registered, and otherwise has
    loops to wait for. *)
Theorem Start_then_Stop (w : @Worker Σ Rand) :
  never_started w ->
  cancel (Start w) = Some tt /\
  handlerMap (Start w) = handlerMap w /\
  Z.of_nat (size (handlerMap w)) <= wg (Start w) /\
  (handlerMap w = ∅ ->
   Stop (Start w) = Stopped (mkWorker (opt w) (Some tt) true 0 ∅)) /\
  (handlerMap w <> ∅ ->
   Stop (Start w) =
   Waiting (mkWorker (opt w) (Some tt) true (wg (Start w)) (handlerMap w))).
Proof.
  intros Hw. destruct (never_started_fields w Hw) as [_ Hg].
  assert (Hsum : Z.of_nat (size (handlerMap w)) <= wg (Start w)).
  { unfold Start. cbn [wg]. rewrite Hg.
    pose proof (goroutines_sum_lower (handlerMap w) 0) as Hlow.
    simpl in Hlow. apply Hlow. intros q hd Hq.
    destruct (never_started_valid w Hw q hd Hq) as [_ Hv].
    apply Validate_None in Hv. unfold goroutines_of. lia. }
  split; [reflexivity|]. split; [reflexivity|]. split; [exact Hsum|]. split.
  - intros Hemp. unfold Stop, Start. cbn [cancel wg opt handlerMap].
    rewrite Hemp, Hg, map_fold_empty. reflexivity.
  - intros Hne. apply Stop_after_Start.
    apply map_size_non_empty_iff in Hne. lia.
Qed.

(** X3.  Registering a queue id that is not yet in the registry, with
    options that pass validation, adds exactly NumGoroutines loops to
    what [Start] launches. *)
Theorem Start_counts_new_queue (w : @Worker Σ Rand) (queueID : string)
        (h : ContextHandleFunc) (o : JobOptions) :
  handlerMap w !! queueID = None ->
  Validate o = None ->
  wg (Start (snd (RegisterWithContext w queueID h o))) =
  wg (Start w) + NumGoroutines o.
Proof.
  intros Hfresh Hv.
  destruct (RegisterWithContext_accepted w queueID h o Hv)
    as (hd & Heq & _ & Ho & _).
  rewrite Heq. unfold Start. cbn [snd wg handlerMap].
  rewrite map_fold_insert_L.
  - unfold goroutines_of. rewrite Ho.
    apply Validate_None in Hv. lia.
  - intros j1 j2 z1 z2 y _ _ _. lia.
  - exact Hfresh.
Qed.


End RegistryLifecycle.

(** A worker with one queue registered, for the instances below. *)
Lemma registry_invariant_witness :
  let w := snd (RegisterWithContext (NewWorker Examples.wopts) "q"
                                    (fun _ => Examples.okHandler)
                                    (Examples.jopts Second Second 3)) in
  exists hd,
    never_started w /\
    handlerMap w !! "q" = Some hd /\
    h_QueueID hd = "q" /\
    0 < NumGoroutines (h_JobOptions hd).
Proof.
  intros w.
  assert (Hw : never_started w) by (apply ns_register, ns_new).
  destruct (RegisterWithContext_accepted (NewWorker Examples.wopts) "q"
              (fun _ => Examples.okHandler) (Examples.jopts Second Second 3) eq_refl)
    as (hd & Heq & _).
  exists hd.
  assert (Hl : handlerMap w !! "q" = Some hd).
  { unfold w. rewrite Heq. apply lookup_insert_eq. }
  destruct (registry_invariant w Hw "q" hd Hl) as (Hq & _ & _ & _ & Hn & _).
  split; [exact Hw|]. split; [exact Hl|]. split; [exact Hq | exact Hn].
Defined.

Lemma Start_then_Stop_witness :
  let w := snd (RegisterWithContext (NewWorker Examples.wopts) "q"
                                    (fun _ => Examples.okHandler)
                                    (Examples.jopts Second Second 3)) in
  never_started w /\
  Z.of_nat (size (handlerMap w)) <= wg (Start w).
Proof.
  intros w.
  assert (Hw : never_started w) by (apply ns_register, ns_new).
  split; [exact Hw|].
  exact (proj1 (proj2 (proj2 (Start_then_Stop w Hw)))).
Defined.

Lemma Start_counts_new_queue_witness :
  let w := NewWorker Examples.wopts in
  let o := Examples.jopts Second Second 3 in
  handlerMap w !! "q" = None /\
  Validate o = None /\
  wg (Start (snd (RegisterWithContext w "q" (fun _ => Examples.okHandler) o))) =
  wg (Start w) + NumGoroutines o.
Proof.
  intros w o.
  assert (H1 : handlerMap w !! "q" = None) by apply lookup_empty.
  assert (H2 : Validate o = None) by reflexivity.
  split; [exact H1|]. split; [exact H2|].
  exact (Start_counts_new_queue w "q" (fun _ => Examples.okHandler) o H1 H2).
Defined.


(** ** The pipelines and the outcomes of a cycle *)

Section CycleOutcomes.

Context {Σ Rand : Type}.
Variable NextBackOff :
  ExponentialBackOff -> Rand -> Duration * ExponentialBackOff * Rand.
Variable debug_Stack : Σ -> string.

(** X5.  A middleware added with [AddDequeueMiddleware] wraps the
    dequeue pipeline built from the middleware added before it, and is
    itself wrapped only by the idle wait; one added with
    [AddHandleMiddleware] wraps the handle pipeline built before it, and
    is itself wrapped by the panic isolation and, outermost, the retry.
    Adding a middleware of one kind leaves the other pipeline and the
    outcome of validation as they were. *)
Theorem middleware_order (queue : @Queue Σ) (ctx : Context) (h : @handler Σ Rand)
        (dmw : DequeueMiddleware) (hmw : HandleMiddleware) :
  let o := h_JobOptions h in
  let withD := mkHandler (h_QueueID h) (h_HandleFunc h) (AddDequeueMiddleware o dmw) in
  let withH := mkHandler (h_QueueID h) (h_HandleFunc h) (AddHandleMiddleware o hmw) in
  start_dequeue queue ctx withD =
    idleWait ctx (IdleWait o)
      (dmw (fold_left (fun dequeue mw => mw dequeue) (JDequeueMiddleware o)
                      (getDequeueFunc queue))) /\
  start_handle NextBackOff debug_Stack queue ctx withH =
    retry NextBackOff queue
      (catchPanic debug_Stack
         (hmw (fold_left (fun handle mw => mw handle) (JHandleMiddleware o)
                         (fun job dopt => h_HandleFunc h ctx job dopt)))) /\
  start_handle NextBackOff debug_Stack queue ctx withD =
    start_handle NextBackOff debug_Stack queue ctx h /\
  start_dequeue queue ctx withH = start_dequeue queue ctx h /\
  Validate (AddDequeueMiddleware o dmw) = Validate o /\
  Validate (AddHandleMiddleware o hmw) = Validate o.
Proof.
  intros o withD withH.
  unfold start_dequeue, start_handle, withD, withH, AddDequeueMiddleware,
    AddHandleMiddleware.
  cbn [h_JobOptions h_HandleFunc JDequeueMiddleware JHandleMiddleware IdleWait].
  rewrite !fold_left_app. repeat split.
Qed.

(** X6.  When the dequeue pipeline under the idle wait returns an
    error, the cycle returns that error and does not call the handler.
    If the error matches the empty-queue error the loop waits for the
    idle time and reports nothing; otherwise it reports the error to
    the error sink, once, and does not wait. *)
Theorem cycle_dequeue_error
        (queue : @Queue Σ) (ns : string) (h : @handler Σ Rand)
        (errFunc : error -> @State Σ Rand -> @State Σ Rand)
        (ctx : Context) (d : Duration) (dequeue : DequeueFunc) (handle : HandleFunc)
        (st st1 : @State Σ Rand) (err : error) :
  dequeue (cycleOptions ns h st) st = (Ret (inr err), st1) ->
  cycle queue ns h errFunc (idleWait ctx d dequeue) handle st =
  (Ret (Some err),
   if errors_Is err ErrEmptyQueue then log st1 (EvSleep d) else errFunc err st1).
Proof.
  intros Hd. unfold cycle, idleWait. rewrite Hd.
  destruct (errors_Is err ErrEmptyQueue) eqn:He; rewrite He; reflexivity.
Qed.

(** The handle pipeline is transparent for a handler that succeeds. *)
Lemma pipeline_success (queue : @Queue Σ) (f : HandleFunc) job o
      (st : @State Σ Rand) job1 st1 :
  f job o st = (Ret None, job1, st1) ->
  retry NextBackOff queue (catchPanic debug_Stack f) job o st = (Ret None, job1, st1).
Proof.
  intros Hf. apply retry_success. unfold catchPanic. rewrite Hf. reflexivity.
Qed.

(** X7.  When the dequeue pipeline yields a job and the handler returns
    success, the cycle under retry and panic isolation makes no call of
    its own: below the threshold of 1000 buffered jobs its only effect,
    beyond those of the dequeue and of the handler, is to append the
    job, as the handler left it, to the ack buffer. *)
Theorem cycle_success
        (queue : @Queue Σ) (ns : string) (h : @handler Σ Rand)
        (errFunc : error -> @State Σ Rand -> @State Σ Rand)
        (ctx : Context) (d : Duration) (dequeue : DequeueFunc) (f : HandleFunc)
        (st st1 st2 : @State Σ Rand) (job job1 : Job) :
  dequeue (cycleOptions ns h st) st = (Ret (inl job), st1) ->
  f job (cycleOptions ns h st) st1 = (Ret None, job1, st2) ->
  Z.of_nat (length (ackJobs st2)) + 1 < 1000 ->
  cycle queue ns h errFunc (idleWait ctx d dequeue)
        (retry NextBackOff queue (catchPanic debug_Stack f)) st =
  (Ret None, set_ackJobs st2 (ackJobs st2 ++ [job1])).
Proof.
  intros Hd Hf Hlen.
  assert (Hd' : idleWait ctx d dequeue (cycleOptions ns h st) st = (Ret (inl job), st1)).
  { unfold idleWait. rewrite Hd. reflexivity. }
  pose proof (pipeline_success queue f job _ st1 job1 st2 Hf) as Hh.
  exact (proj1 (cycle_handle_success queue ns h errFunc (idleWait ctx d dequeue) _
                                     st st1 job job1 st2 Hd' Hh) Hlen).
Qed.







End CycleOutcomes.

(** An empty in-memory queue: one Dequeue, one idle wait, no report. *)
Lemma cycle_dequeue_error_witness :
  let h := Examples.hd Second in
  let o := cycleOptions "ns" h Examples.st0 in
  let dequeue := getDequeueFunc Examples.memQueue in
  dequeue o Examples.st0 =
    (Ret (inr ErrEmptyQueue), mkState [] 5 tt [EvDequeue o] 1 [] []) /\
  cycle Examples.memQueue "ns" h (start_errFunc (NewWorker Examples.wopts) h)
        (idleWait context_Background Second dequeue) Examples.okHandler Examples.st0 =
  (Ret (Some ErrEmptyQueue), mkState [] 5 tt [EvDequeue o; EvSleep Second] 1 [] []).
Proof.
  intros h o dequeue.
  assert (H : dequeue o Examples.st0 =
              (Ret (inr ErrEmptyQueue), mkState [] 5 tt [EvDequeue o] 1 [] []))
    by reflexivity.
  split; [exact H|].
  exact (cycle_dequeue_error Examples.memQueue "ns" h
           (start_errFunc (NewWorker Examples.wopts) h)
           context_Background Second dequeue Examples.okHandler _ _ _ H).
Defined.

(** One waiting job and a handler that succeeds. *)
Lemma cycle_success_witness :
  let h := Examples.hd Second in
  let o := cycleOptions "ns" h MoreExamples.stJob in
  let dequeue := getDequeueFunc Examples.memQueue in
  let st1 := mkState [] 5 tt [EvDequeue o] 1 [] [] in
  dequeue o MoreExamples.stJob = (Ret (inl Examples.job1), st1) /\
  Examples.okHandler Examples.job1 o st1 = (Ret None, Examples.job1, st1) /\
  Z.of_nat (length (ackJobs st1)) + 1 < 1000 /\
  cycle Examples.memQueue "ns" h (start_errFunc (NewWorker Examples.wopts) h)
        (idleWait context_Background Second dequeue)
        (retry Examples.plainBackOff Examples.memQueue
               (catchPanic Examples.stack Examples.okHandler))
        MoreExamples.stJob =
  (Ret None, mkState [] 5 tt [EvDequeue o] 1 [] [Examples.job1]).
Proof.
  intros h o dequeue st1.
  assert (H1 : dequeue o MoreExamples.stJob = (Ret (inl Examples.job1), st1))
    by reflexivity.
  assert (H2 : Examples.okHandler Examples.job1 o st1 = (Ret None, Examples.job1, st1))
    by reflexivity.
  assert (H3 : Z.of_nat (length (ackJobs st1)) + 1 < 1000) by reflexivity.
  split; [exact H1|]. split; [exact H2|]. split; [exact H3|].
  exact (cycle_success Examples.plainBackOff Examples.stack Examples.memQueue "ns" h
           (start_errFunc (NewWorker Examples.wopts) h) context_Background Second
           dequeue Examples.okHandler _ _ _ _ _ H1 H2 H3).
Defined.


(** ** More on the ack buffer *)

Section AckBuffer.

Context {Σ Rand : Type}.

Lemma set_ackJobs_same (st : @State Σ Rand) : set_ackJobs st (ackJobs st) = st.
Proof. destruct st; reflexivity. Qed.

(** The buffer after a flush: empty on success, as before on failure. *)
Lemma flush_buffer (queue : @Queue Σ) ns (h : @handler Σ Rand) (st : @State Σ Rand) :
  ackJobs (snd (flush queue ns h st)) =
  match fst (flush queue ns h st) with
  | None => []
  | Some _ => ackJobs st
  end.
Proof.
  unfold flush. destruct (asBulkDequeuer queue) as [b|].
  - unfold bulk_BulkAck.
    destruct (BulkAck b (ackJobs st) _ (ext st)) as [[e|] s1]; reflexivity.
  - pose proof (ackEach_spec queue (AckOptions.mk ns (h_QueueID h)) (ackJobs st) st)
      as Hspec.
    cbv zeta in Hspec.
    destruct (ackEach queue _ (ackJobs st) st) as [[e|] st1];
      cbn [fst snd] in *; [|reflexivity].
    destruct Hspec as (_ & Hbuf & _). exact Hbuf.
Qed.

(** The calls of the one-by-one loop begin with the head of the list. *)
Lemma ackEach_head (queue : @Queue Σ) o j0 rest (st : @State Σ Rand) :
  exists evs,
    calls (snd (ackEach queue o (j0 :: rest) st)) = calls st ++ EvAck j0 o :: evs.
Proof.
  pose proof (ackEach_spec queue o (j0 :: rest) st) as Hspec. cbv zeta in Hspec.
  destruct Hspec as (_ & _ & [(_ & _ & Hcalls) | Hfail]).
  - rewrite Hcalls. simpl. eauto.
  - destruct Hfail as (pre & j & post & s & err & Hjs & _ & _ & _ & Hcalls).
    rewrite Hcalls. destruct pre as [|p pre]; simpl in Hjs; injection Hjs as -> _.
    + simpl. eauto.
    + simpl. eauto.
Qed.

(** X10.  A flush of an empty buffer makes no call at all on a backend
    without bulk support and changes nothing; on a bulk-capable backend
    it still makes one BulkAck call, with an empty batch. *)
Theorem flush_empty_buffer (queue : @Queue Σ) (ns : string) (h : @handler Σ Rand)
        (errFunc : error -> @State Σ Rand -> @State Σ Rand) (st : @State Σ Rand) :
  ackJobs st = [] ->
  let o := AckOptions.mk ns (h_QueueID h) in
  (asBulkDequeuer queue = None ->
   flush queue ns h st = (None, st) /\ tick queue ns h errFunc st = st) /\
  (forall b, asBulkDequeuer queue = Some b ->
     calls (snd (flush queue ns h st)) = calls st ++ [EvBulkAck [] o] /\
     fst (flush queue ns h st) = fst (BulkAck b [] o (ext st))).
Proof.
  intros Hemp o. split.
  - intros Hb.
    assert (Hf : flush queue ns h st = (None, st)).
    { unfold flush. rewrite Hb, Hemp. cbn [ackEach].
      rewrite <- Hemp. apply f_equal, set_ackJobs_same. }
    split; [exact Hf|]. unfold tick. rewrite Hf. reflexivity.
  - intros b Hb. unfold flush. rewrite Hb, Hemp. fold o. unfold bulk_BulkAck.
    destruct (BulkAck b [] o (ext st)) as [[e|] s1]; split; reflexivity.
Qed.

(** X11.  After a failed flush on a backend without bulk support the
    buffer is what it was, and the next flush starts again at its first
    job: a job acknowledged before the failure is acknowledged a second
    time. *)
Theorem flush_again_after_failure (queue : @Queue Σ) (ns : string)
        (h : @handler Σ Rand) (st : @State Σ Rand) (err : error) :
  asBulkDequeuer queue = None ->
  fst (flush queue ns h st) = Some err ->
  let o := AckOptions.mk ns (h_QueueID h) in
  let st1 := snd (flush queue ns h st) in
  ackJobs st1 = ackJobs st /\
  exists j0 rest evs1 evs2,
    ackJobs st = j0 :: rest /\
    calls st1 = calls st ++ EvAck j0 o :: evs1 /\
    calls (snd (flush queue ns h st1)) = calls st1 ++ EvAck j0 o :: evs2.
Proof.
  intros Hb Herr o st1.
  assert (Hbuf : ackJobs st1 = ackJobs st).
  { unfold st1. rewrite flush_buffer, Herr. reflexivity. }
  split; [exact Hbuf|].
  destruct (ackJobs st) as [|j0 rest] eqn:Hjs.
  { exfalso. unfold flush in Herr. rewrite Hb, Hjs in Herr. discriminate. }
  exists j0, rest.
  assert (Hcalls : forall s : @State Σ Rand,
             ackJobs s = j0 :: rest ->
             exists evs, calls (snd (flush queue ns h s)) = calls s ++ EvAck j0 o :: evs).
  { intros s Hs. unfold flush. rewrite Hb, Hs. fold o.
    destruct (ackEach_head queue o j0 rest s) as [evs Hevs].
    exists evs. destruct (ackEach queue o (j0 :: rest) s) as [[e|] s1];
      cbn [snd] in *; exact Hevs. }
  destruct (Hcalls st Hjs) as [evs1 H1].
  destruct (Hcalls st1 Hbuf) as [evs2 H2].
  exists evs1, evs2. split; [reflexivity|]. split; [exact H1 | exact H2].
Qed.


(** X13.  When the buffer has reached the threshold and the flush
    fails, the handled job is not lost: it stays in the buffer behind
    the jobs that were there, the flush error is reported to the error
    sink and is the result of the cycle.  The buffer can so grow past
    1000 while the backend refuses acknowledgements. *)
Theorem threshold_flush_failure (queue : @Queue Σ) (ns : string) (h : @handler Σ Rand)
        (errFunc : error -> @State Σ Rand -> @State Σ Rand)
        (dequeue : DequeueFunc) (handle : HandleFunc)
        (st st1 st2 : @State Σ Rand) (job job1 : Job) (e : error) :
  dequeue (cycleOptions ns h st) st = (Ret (inl job), st1) ->
  handle job (cycleOptions ns h st) st1 = (Ret None, job1, st2) ->
  1000 <= Z.of_nat (length (ackJobs st2)) + 1 ->
  let st3 := set_ackJobs st2 (ackJobs st2 ++ [job1]) in
  fst (flush queue ns h st3) = Some e ->
  cycle queue ns h errFunc dequeue handle st =
    (Ret (Some e), errFunc e (snd (flush queue ns h st3))) /\
  ackJobs (snd (flush queue ns h st3)) = ackJobs st2 ++ [job1].
Proof.
  intros Hd Hh Hfull st3 Hfail. split.
  - unfold cycle. rewrite Hd, Hh. fold st3.
    assert (Hlen : Z.of_nat (length (ackJobs st3)) = Z.of_nat (length (ackJobs st2)) + 1).
    { unfold st3. cbn [ackJobs set_ackJobs]. rewrite length_app. simpl. lia. }
    rewrite Hlen.
    destruct (Z.leb_spec 1000 (Z.of_nat (length (ackJobs st2)) + 1)); [|lia].
    destruct (flush queue ns h st3) as [[e'|] st4]; cbn [fst snd] in *;
      [|discriminate].
    injection Hfail as ->. reflexivity.
  - rewrite flush_buffer, Hfail. reflexivity.
Qed.

End AckBuffer.

Lemma flush_empty_buffer_witness :
  let h := Examples.hd Second in
  ackJobs Examples.st0 = [] /\
  flush Examples.memQueue "ns" h Examples.st0 = (None, Examples.st0) /\
  calls (snd (flush Examples.bulkQueue "ns" h Examples.st0))
  = [EvBulkAck [] (AckOptions.mk "ns" "q")].
Proof.
  intros h.
  assert (H : ackJobs Examples.st0 = []) by reflexivity.
  destruct (flush_empty_buffer Examples.memQueue "ns" h (fun _ s => s) Examples.st0 H)
    as [Hsingle _].
  destruct (flush_empty_buffer Examples.bulkQueue "ns" h (fun _ s => s) Examples.st0 H)
    as [_ Hbulk].
  split; [exact H|]. split.
  - exact (proj1 (Hsingle eq_refl)).
  - exact (proj1 (Hbulk Examples.memBulk eq_refl)).
Defined.

Lemma flush_again_after_failure_witness :
  let h := Examples.hd Second in
  let st := MoreExamples.buffered [Examples.job1; Examples.jobBad; Examples.job2] in
  asBulkDequeuer Examples.pickyQueue = None /\
  fst (flush Examples.pickyQueue "ns" h st) = Some Examples.errBackend /\
  ackJobs (snd (flush Examples.pickyQueue "ns" h st)) = ackJobs st.
Proof.
  intros h st.
  assert (H1 : asBulkDequeuer Examples.pickyQueue = None) by reflexivity.
  assert (H2 : fst (flush Examples.pickyQueue "ns" h st) = Some Examples.errBackend)
    by reflexivity.
  split; [exact H1|]. split; [exact H2|].
  exact (proj1 (flush_again_after_failure Examples.pickyQueue "ns" h st
                  Examples.errBackend H1 H2)).
Defined.


(** A buffer of 999 jobs headed by one the backend refuses: the job
    handled next is the thousandth, the flush fails, the job stays. *)
Lemma threshold_flush_failure_witness :
  let h := Examples.hd Second in
  let dequeue : @DequeueFunc Examples.Mem unit :=
    fun o s => (Ret (inl Examples.job2), s) in
  let errFunc : error -> @State Examples.Mem unit -> @State Examples.Mem unit :=
    fun _ s => s in
  let st := MoreExamples.buffered (Examples.jobBad :: repeat Examples.job1 998) in
  let st3 := set_ackJobs st (ackJobs st ++ [Examples.job2]) in
  dequeue (cycleOptions "ns" h st) st = (Ret (inl Examples.job2), st) /\
  Examples.okHandler Examples.job2 (cycleOptions "ns" h st) st
    = (Ret None, Examples.job2, st) /\
  1000 <= Z.of_nat (length (ackJobs st)) + 1 /\
  fst (flush Examples.pickyQueue "ns" h st3) = Some Examples.errBackend /\
  fst (cycle Examples.pickyQueue "ns" h errFunc dequeue Examples.okHandler st)
    = Ret (Some Examples.errBackend) /\
  ackJobs (snd (flush Examples.pickyQueue "ns" h st3)) = ackJobs st ++ [Examples.job2].
Proof.
  intros h dequeue errFunc st st3.
  assert (H1 : dequeue (cycleOptions "ns" h st) st = (Ret (inl Examples.job2), st))
    by reflexivity.
  assert (H2 : Examples.okHandler Examples.job2 (cycleOptions "ns" h st) st
               = (Ret None, Examples.job2, st)) by reflexivity.
  assert (H3 : 1000 <= Z.of_nat (length (ackJobs st)) + 1)
    by (vm_compute; discriminate).
  assert (H4 : fst (flush Examples.pickyQueue "ns" h st3) = Some Examples.errBackend)
    by (vm_compute; reflexivity).
  destruct (threshold_flush_failure Examples.pickyQueue "ns" h errFunc dequeue
              Examples.okHandler st st st Examples.job2 Examples.job2
              Examples.errBackend H1 H2 H3 H4) as [Hc Hb].
  split; [exact H1|]. split; [exact H2|]. split; [exact H3|]. split; [exact H4|].
  split; [rewrite Hc; reflexivity | exact Hb].
Defined.

(** ** More on the dequeue adapter *)

Section AdapterEdges.

Context {Σ Rand : Type}.

Lemma set_InvisibleSec_same (o : DequeueOptions.t) :
  DequeueOptions.set_InvisibleSec o (DequeueOptions.InvisibleSec o) = o.
Proof. destruct o; reflexivity. Qed.

(** X14.  When a bulk-capable adapter refills its buffer for a positive
    InvisibleSec, it asks for between 1 and 60 jobs, and the
    InvisibleSec it passes to the backend is the caller's times that
    count: never less than the caller's, never more than the larger of
    60 and the caller's, and more than 60 minus the caller's when the
    caller's is at most 60.  Namespace, queue id and instant are the
    caller's. *)
Theorem getDequeueFunc_bulk_bounds (queue : @Queue Σ) (b : BulkDequeuer)
        (o : DequeueOptions.t) (st : @State Σ Rand) :
  asBulkDequeuer queue = Some b ->
  jobs st = [] ->
  0 < DequeueOptions.InvisibleSec o ->
  DequeueOptions.InvisibleSec o <= int64_max ->
  let inv := DequeueOptions.InvisibleSec o in
  exists count bulkOpt,
    calls (snd (getDequeueFunc queue o st)) = calls st ++ [EvBulkDequeue count bulkOpt] /\
    1 <= count <= 60 /\
    DequeueOptions.InvisibleSec bulkOpt = inv * count /\
    inv <= DequeueOptions.InvisibleSec bulkOpt <= Z.max 60 inv /\
    (inv <= 60 -> 60 - inv < DequeueOptions.InvisibleSec bulkOpt <= 60) /\
    DequeueOptions.Namespace bulkOpt = DequeueOptions.Namespace o /\
    DequeueOptions.QueueID bulkOpt = DequeueOptions.QueueID o /\
    DequeueOptions.At bulkOpt = DequeueOptions.At o.
Proof.
  intros Hb Hj Hpos Hmax inv.
  pose proof (getDequeueFunc_refill queue b o st Hb Hj ltac:(lia)) as Hrefill.
  cbv zeta in Hrefill. fold inv in Hrefill.
  destruct (bulkCount_positive inv Hpos Hmax) as [Hc Hm].
  exists (bulkCount inv),
         (DequeueOptions.set_InvisibleSec o (mul64 inv (bulkCount inv))).
  split.
  { rewrite Hrefill.
    destruct (fst (BulkDequeue b _ _ (ext st))) as [[|j rest]|err]; reflexivity. }
  cbn [DequeueOptions.set_InvisibleSec DequeueOptions.InvisibleSec
       DequeueOptions.Namespace DequeueOptions.QueueID DequeueOptions.At].
  rewrite Hm, Hc.
  pose proof (Z.mul_div_le 60 inv Hpos) as Hle.
  pose proof (Z.mul_succ_div_gt 60 inv Hpos) as Hgt.
  destruct (Z.le_gt_cases inv 60) as [Hsmall|Hbig].
  - assert (Hq : 1 <= 60 / inv <= 60).
    { split; [apply Z.div_le_lower_bound; lia|].
      apply Z.div_le_upper_bound; nia. }
    replace (Z.max 1 (60 / inv)) with (60 / inv) by lia.
    replace (Z.max 60 inv) with 60 by lia.
    assert (Hge : inv * 1 <= inv * (60 / inv)) by (apply Z.mul_le_mono_nonneg_l; lia).
    replace (inv * Z.succ (60 / inv)) with (inv * (60 / inv) + inv) in Hgt by lia.
    repeat split; lia.
  - assert (Hq : 60 / inv = 0) by (apply Z.div_small; lia).
    rewrite Hq. replace (Z.max 1 0) with 1 by lia.
    replace (Z.max 60 inv) with inv by lia.
    repeat split; lia.
Qed.

Lemma quot64_60_negative (inv : Z) :
  inv < 0 -> quot64 60 inv <= 0.
Proof.
  intros Hneg. unfold quot64.
  assert (Hq : -60 <= Z.quot 60 inv <= 0).
  { replace inv with (- (- inv)) by lia. rewrite Z.quot_opp_r by lia.
    rewrite Z.quot_div_nonneg by lia.
    assert (0 <= 60 / (- inv) <= 60).
    { split; [apply Z.div_pos; lia|]. apply Z.div_le_upper_bound; nia. }
    lia. }
  rewrite wrap64_small by int64_lia. lia.
Qed.

(** X15.  With a bulk-capable backend and an empty buffer, an
    InvisibleSec of zero makes the adapter panic with an integer
    division by zero before any backend call; a negative InvisibleSec
    is passed on unchanged with a request for one job. *)
Theorem getDequeueFunc_nonpositive (queue : @Queue Σ) (b : BulkDequeuer)
        (o : DequeueOptions.t) (st : @State Σ Rand) :
  asBulkDequeuer queue = Some b ->
  jobs st = [] ->
  (DequeueOptions.InvisibleSec o = 0 ->
   getDequeueFunc queue o st = (Panic divideByZero, st)) /\
  (DequeueOptions.InvisibleSec o < 0 ->
   int64_min <= DequeueOptions.InvisibleSec o ->
   calls (snd (getDequeueFunc queue o st)) = calls st ++ [EvBulkDequeue 1 o] /\
   ext (snd (getDequeueFunc queue o st)) = snd (BulkDequeue b 1 o (ext st))).
Proof.
  intros Hb Hj. split.
  - intros Hz. unfold getDequeueFunc. rewrite Hb, Hj, Hz. reflexivity.
  - intros Hneg Hmin.
    pose proof (getDequeueFunc_refill queue b o st Hb Hj ltac:(lia)) as Hrefill.
    cbv zeta in Hrefill.
    assert (Hc : bulkCount (DequeueOptions.InvisibleSec o) = 1).
    { unfold bulkCount.
      pose proof (quot64_60_negative _ Hneg) as Hq.
      destruct (Z.leb_spec (quot64 60 (DequeueOptions.InvisibleSec o)) 0); [reflexivity|lia]. }
    rewrite Hc in Hrefill.
    rewrite mul64_small in Hrefill by int64_lia.
    rewrite Z.mul_1_r, set_InvisibleSec_same in Hrefill.
    rewrite Hrefill.
    destruct (fst (BulkDequeue b 1 o (ext st))) as [[|j rest]|err];
      split; reflexivity.
Qed.

(** One call of a bulk-capable adapter makes no call or one
    BulkDequeue call. *)
Lemma getDequeueFunc_bulk_step (queue : @Queue Σ) (b : BulkDequeuer)
      (o : DequeueOptions.t) (st : @State Σ Rand) :
  asBulkDequeuer queue = Some b ->
  exists evs,
    calls (snd (getDequeueFunc queue o st)) = calls st ++ evs /\
    Forall isBulkDequeue evs /\ (length evs <= 1)%nat.
Proof.
  intros Hb. destruct (jobs st) as [|j rest] eqn:Hj.
  - destruct (Z.eq_dec (DequeueOptions.InvisibleSec o) 0) as [Hz|Hnz].
    + exists []. unfold getDequeueFunc. rewrite Hb, Hj, Hz. cbn.
      rewrite app_nil_r. split; [reflexivity|]. split; [constructor | simpl; lia].
    + pose proof (getDequeueFunc_refill queue b o st Hb Hj Hnz) as Hrefill.
      cbv zeta in Hrefill. rewrite Hrefill.
      eexists [_]. split.
      { destruct (fst (BulkDequeue b _ _ (ext st))) as [[|j rest]|err]; reflexivity. }
      split; [constructor; [exact I | constructor] | simpl; lia].
  - exists []. rewrite (getDequeueFunc_buffered queue b o st j rest Hb Hj).
    cbn. rewrite app_nil_r. split; [reflexivity|]. split; [constructor | simpl; lia].
Qed.

(** X16.  An adapter over a bulk-capable backend never calls the
    single-job Dequeue: over any run of calls, what it adds to the
    calls on the backend are BulkDequeue calls, at most one per call of
    the adapter.  An adapter over a backend without the capability
    makes exactly one Dequeue call per call, with the caller's options,
    and never touches the prefetch buffer. *)
Theorem adapter_calls (queue : @Queue Σ) (os : list DequeueOptions.t)
        (st : @State Σ Rand) :
  (forall b, asBulkDequeuer queue = Some b ->
     exists evs,
       calls (snd (dequeueAll (getDequeueFunc queue) os st)) = calls st ++ evs /\
       Forall isBulkDequeue evs /\ (length evs <= length os)%nat) /\
  (asBulkDequeuer queue = None ->
     calls (snd (dequeueAll (getDequeueFunc queue) os st))
       = calls st ++ map EvDequeue os /\
     jobs (snd (dequeueAll (getDequeueFunc queue) os st)) = jobs st).
Proof.
  split.
  - intros b Hb. revert st. induction os as [|o os IH]; intros st.
    + exists []. cbn. rewrite app_nil_r.
      split; [reflexivity|]. split; [constructor | simpl; lia].
    + cbn [dequeueAll].
      destruct (getDequeueFunc_bulk_step queue b o st Hb) as (evs1 & H1 & F1 & L1).
      destruct (getDequeueFunc queue o st) as [r st1]. cbn [snd] in H1.
      destruct (IH st1) as (evs2 & H2 & F2 & L2).
      destruct (dequeueAll (getDequeueFunc queue) os st1) as [rs st2].
      cbn [snd] in *. exists (evs1 ++ evs2).
      rewrite H2, H1, <- app_assoc. split; [reflexivity|].
      split; [apply Forall_app; auto|]. rewrite length_app. simpl. lia.
  - intros Hb. revert st. induction os as [|o os IH]; intros st.
    + cbn. rewrite app_nil_r. auto.
    + cbn [dequeueAll]. rewrite (getDequeueFunc_single queue o st Hb).
      specialize (IH (log (set_ext st (snd (Dequeue queue o (ext st)))) (EvDequeue o))).
      destruct (dequeueAll (getDequeueFunc queue) os _) as [rs st2].
      cbn [snd] in *. destruct IH as [-> ->]. cbn [calls jobs log set_ext map].
      rewrite <- app_assoc. auto.
Qed.

End AdapterEdges.

Lemma getDequeueFunc_bulk_bounds_witness :
  let o := Examples.dopts 7 in
  asBulkDequeuer Examples.bulkQueue = Some Examples.memBulk /\
  jobs Examples.st2 = [] /\
  0 < DequeueOptions.InvisibleSec o /\
  DequeueOptions.InvisibleSec o <= int64_max /\
  exists count bulkOpt,
    calls (snd (getDequeueFunc Examples.bulkQueue o Examples.st2))
      = calls Examples.st2 ++ [EvBulkDequeue count bulkOpt] /\
    1 <= count <= 60 /\
    60 - 7 < DequeueOptions.InvisibleSec bulkOpt <= 60.
Proof.
  intros o.
  assert (H1 : asBulkDequeuer Examples.bulkQueue = Some Examples.memBulk) by reflexivity.
  assert (H2 : jobs Examples.st2 = []) by reflexivity.
  assert (H3 : 0 < DequeueOptions.InvisibleSec o) by reflexivity.
  assert (H4 : DequeueOptions.InvisibleSec o <= int64_max) by (vm_compute; discriminate).
  split; [exact H1|]. split; [exact H2|]. split; [exact H3|]. split; [exact H4|].
  destruct (getDequeueFunc_bulk_bounds Examples.bulkQueue Examples.memBulk o
              Examples.st2 H1 H2 H3 H4)
    as (count & bulkOpt & Hcalls & Hcount & _ & _ & Hnear & _).
  exists count, bulkOpt. split; [exact Hcalls|]. split; [exact Hcount|].
  apply Hnear. vm_compute. discriminate.
Defined.

Lemma getDequeueFunc_nonpositive_witness :
  asBulkDequeuer Examples.bulkQueue = Some Examples.memBulk /\
  jobs Examples.st2 = [] /\
  getDequeueFunc Examples.bulkQueue (Examples.dopts 0) Examples.st2
    = (Panic divideByZero, Examples.st2) /\
  calls (snd (getDequeueFunc Examples.bulkQueue (Examples.dopts (-3)) Examples.st2))
    = [EvBulkDequeue 1 (Examples.dopts (-3))].
Proof.
  assert (H1 : asBulkDequeuer Examples.bulkQueue = Some Examples.memBulk) by reflexivity.
  assert (H2 : jobs Examples.st2 = []) by reflexivity.
  split; [exact H1|]. split; [exact H2|]. split.
  - exact (proj1 (getDequeueFunc_nonpositive Examples.bulkQueue Examples.memBulk
                    (Examples.dopts 0) Examples.st2 H1 H2) eq_refl).
  - refine (proj1 (proj2 (getDequeueFunc_nonpositive Examples.bulkQueue Examples.memBulk
                            (Examples.dopts (-3)) Examples.st2 H1 H2) _ _)).
    + reflexivity.
    + vm_compute. discriminate.
Defined.

(** ** More on [retry] *)

Section RetryEdges.

Context {Σ Rand : Type}.
Variable NextBackOff :
  ExponentialBackOff -> Rand -> Duration * ExponentialBackOff * Rand.

(** X17.  Whatever the handler returns, [retry] leaves the ack buffer,
    the prefetch buffer and the job's identifier and payload as the
    handler left them; it makes at most one call of its own, and that
    call is an Enqueue; and its result is the handler's, except that an
    error can be turned into success. *)
Theorem retry_footprint (queue : @Queue Σ) (f : HandleFunc) (job : Job)
        (o : DequeueOptions.t) (st : @State Σ Rand) :
  let inner := f job o st in
  let r := retry NextBackOff queue f job o st in
  ackJobs (snd r) = ackJobs (snd inner) /\
  jobs (snd r) = jobs (snd inner) /\
  ID (snd (fst r)) = ID (snd (fst inner)) /\
  Payload (snd (fst r)) = Payload (snd (fst inner)) /\
  (exists evs,
      calls (snd r) = calls (snd inner) ++ evs /\
      Forall isEnqueue evs /\ (length evs <= 1)%nat) /\
  (fst (fst r) = fst (fst inner) \/
   (fst (fst r) = Ret None /\ exists err, fst (fst inner) = Ret (Some err))).
Proof.
  intros inner r. subst inner r.
  destruct (f job o st) as [[res job1] st1] eqn:Hf. cbn [fst snd].
  assert (Hnone : exists evs : list Event,
             calls st1 = calls st1 ++ evs /\ Forall isEnqueue evs /\ (length evs <= 1)%nat).
  { exists []. rewrite app_nil_r. split; [reflexivity|].
    split; [constructor | simpl; lia]. }
  destruct res as [[err|]|v].
  - destruct (errors_Is err ErrUnrecoverable) eqn:Hu.
    { rewrite (retry_unrecoverable NextBackOff queue f job o st err job1 st1 Hf Hu).
      cbn [fst snd]. repeat split; try exact Hnone. right. eauto. }
    destruct (errors_Is err ErrDoNotRetry) eqn:Hd.
    { rewrite (retry_do_not_retry NextBackOff queue f job o st err job1 st1 Hf Hu Hd).
      cbn [fst snd]. repeat split; try exact Hnone. left. reflexivity. }
    rewrite (retry_retryable NextBackOff queue f job o st err job1 st1 Hf Hu Hd).
    cbn [fst snd ackJobs jobs calls log set_ext set_rand ID Payload].
    repeat split.
    + eexists [_]. split; [reflexivity|].
      split; [constructor; [exact I | constructor] | simpl; lia].
    + left. reflexivity.
  - rewrite (retry_success NextBackOff queue f job o st job1 st1 Hf).
    cbn [fst snd]. repeat split; try exact Hnone. left. reflexivity.
  - rewrite (retry_panic NextBackOff queue f job o st v job1 st1 Hf).
    cbn [fst snd]. repeat split; try exact Hnone. left. reflexivity.
Qed.

(** X18.  When the incremented retry counter is not positive (a job
    that arrives with a negative counter, or with the largest int64,
    which the increment wraps to the smallest), the backoff loop does
    not run: the job is enqueued for the present instant and the random
    source is not drawn from. *)
Theorem retry_without_delay (queue : @Queue Σ) (f : HandleFunc) (job : Job)
        (o : DequeueOptions.t) (st : @State Σ Rand)
        (err : error) (job1 : Job) (st1 : @State Σ Rand) :
  f job o st = (Ret (Some err), job1, st1) ->
  errors_Is err ErrUnrecoverable = false ->
  errors_Is err ErrDoNotRetry = false ->
  add64 (Retries job1) 1 <= 0 ->
  let r := retry NextBackOff queue f job o st in
  EnqueuedAt (snd (fst r)) = time_Now st1 /\
  UpdatedAt (snd (fst r)) = time_Now st1 /\
  rand (snd r) = rand st1 /\
  (Retries job1 = int64_max -> Retries (snd (fst r)) = int64_min).
Proof.
  intros Hf Hu Hd Hk r. subst r.
  rewrite (retry_retryable NextBackOff queue f job o st err job1 st1 Hf Hu Hd).
  cbn [fst snd EnqueuedAt UpdatedAt Retries rand log set_ext set_rand].
  assert (Hn : Z.to_nat (add64 (Retries job1) 1) = 0%nat) by lia.
  unfold delay. rewrite Hn. cbn [schedule List.last backoffLoop snd].
  unfold Time_Add. repeat split; try lia.
  intros ->. reflexivity.
Qed.

End RetryEdges.

Lemma retry_without_delay_witness :
  let f := Examples.failWith Examples.errBoom in
  let r := retry Examples.plainBackOff Examples.memQueue f MoreExamples.jobMax
                 (Examples.dopts 4) Examples.st0 in
  f MoreExamples.jobMax (Examples.dopts 4) Examples.st0
    = (Ret (Some Examples.errBoom), MoreExamples.jobMax, Examples.st0) /\
  errors_Is Examples.errBoom ErrUnrecoverable = false /\
  errors_Is Examples.errBoom ErrDoNotRetry = false /\
  add64 (Retries MoreExamples.jobMax) 1 <= 0 /\
  EnqueuedAt (snd (fst r)) = 5 /\
  Retries (snd (fst r)) = int64_min.
Proof.
  intros f r.
  assert (H1 : f MoreExamples.jobMax (Examples.dopts 4) Examples.st0
               = (Ret (Some Examples.errBoom), MoreExamples.jobMax, Examples.st0))
    by reflexivity.
  assert (H2 : errors_Is Examples.errBoom ErrUnrecoverable = false) by reflexivity.
  assert (H3 : errors_Is Examples.errBoom ErrDoNotRetry = false) by reflexivity.
  assert (H4 : add64 (Retries MoreExamples.jobMax) 1 <= 0) by (vm_compute; discriminate).
  destruct (retry_without_delay Examples.plainBackOff Examples.memQueue f _ _ _ _ _ _
                                H1 H2 H3 H4) as (Ha & _ & _ & Hb).
  split; [exact H1|]. split; [exact H2|]. split; [exact H3|]. split; [exact H4|].
  split; [exact Ha | exact (Hb eq_refl)].
Defined.

(** ** [ExportMetrics] *)

Section MetricsProperties.

Context {Σ Rand QueueMetrics : Type}.
Variable asMetricsExporter : @Queue Σ -> option (@MetricsExporter Σ QueueMetrics).

Abbreviation exporter_of' := (exporter_of asMetricsExporter).
Abbreviation exportEach' := (exportEach asMetricsExporter).
Abbreviation exported' := (exported asMetricsExporter).

(** The queries change the outside state and nothing else. *)
Lemma exported_frame (w : @Worker Σ Rand) hs st ms st' :
  exported' w hs st ms st' ->
  clock st' = clock st /\ calls st' = calls st /\ jobs st' = jobs st /\
  ackJobs st' = ackJobs st /\ (length ms <= length hs)%nat.
Proof.
  induction 1 as [st | h hs st ms st' Hn Hrest IH
                  | h hs st exporter m s ms st' He Hq Hrest IH].
  - repeat split. simpl. lia.
  - destruct IH as (?&?&?&?&?). repeat split; try assumption. simpl. lia.
  - destruct IH as (?&?&?&?&?). repeat split; try assumption. simpl. lia.
Qed.

Lemma exported_app (w : @Worker Σ Rand) pre st ms st1 post ms' st2 :
  exported' w pre st ms st1 ->
  exported' w post st1 ms' st2 ->
  exported' w (pre ++ post) st (ms ++ ms') st2.
Proof.
  induction 1; intros Hpost; simpl.
  - exact Hpost.
  - apply exported_skip; auto.
  - eapply exported_query; eauto.
Qed.

(** The loop of [ExportMetrics], case by case. *)
Lemma exportEach_spec (w : @Worker Σ Rand) (hs : list (@handler Σ Rand)) :
  forall acc (st : @State Σ Rand),
    let r := exportEach' w hs acc st in
    (exists ms, fst r = inl (acc ++ ms) /\ exported' w hs st ms (snd r))
    \/
    (exists pre h post exporter ms st1 err s,
        hs = pre ++ h :: post /\
        exported' w pre st ms st1 /\
        exporter_of' w h = Some exporter /\
        GetQueueMetrics exporter (metricsOptions w h st1) (ext st1) = (inr err, s) /\
        fst r = inr err /\
        snd r = set_ext st1 s).
Proof.
  induction hs as [|h hs IH]; intros acc st r; subst r.
  - left. exists []. cbn. rewrite app_nil_r. split; [reflexivity | constructor].
  - cbn [exportEach].
    destruct (exporter_of' w h) as [exporter|] eqn:He.
    + destruct (GetQueueMetrics exporter (metricsOptions w h st) (ext st))
        as [[m|err] s] eqn:Hq.
      * destruct (IH (acc ++ [m]) (set_ext st s)) as [Hok | Hbad].
        -- destruct Hok as (ms & Hres & Hex). left. exists (m :: ms).
           rewrite Hres, <- app_assoc. split; [reflexivity|].
           eapply exported_query; eauto.
        -- destruct Hbad as (pre & h' & post & ex' & ms & st1 & err & s' &
                             Hhs & Hex & He' & Hq' & Hres & Hst).
           right. exists (h :: pre), h', post, ex', (m :: ms), st1, err, s'.
           split; [simpl; congruence|].
           split; [eapply exported_query; eauto|]. auto.
      * right. exists [], h, hs, exporter, [], st, err, s. cbn [fst snd].
        split; [reflexivity|]. split; [constructor|]. auto.
    + destruct (IH acc st) as [Hok | Hbad].
      * destruct Hok as (ms & Hres & Hex). left. exists ms.
        split; [exact Hres|]. apply exported_skip; assumption.
      * destruct Hbad as (pre & h' & post & ex' & ms & st1 & err & s' &
                          Hhs & Hex & He' & Hq' & Hres & Hst).
        right. exists (h :: pre), h', post, ex', ms, st1, err, s'.
        split; [simpl; congruence|].
        split; [apply exported_skip; assumption|]. auto.
Qed.

(** X19.  When [ExportMetrics] succeeds, its result holds the snapshots
    of the handlers whose queue exports metrics, one each, in the order
    of the iteration, every one asked under the namespace and queue id
    of its handler; the handlers whose queue lacks the capability (or
    that have no queue) are passed over.  The result has at most one
    snapshot per registered queue, and only the backends' state has
    changed. *)
Theorem ExportMetrics_success (w : @Worker Σ Rand) (order : list (@handler Σ Rand))
        (st st' : @State Σ Rand) (m : @Metrics QueueMetrics) :
  range_order w order ->
  ExportMetrics asMetricsExporter w order st = (inl m, st') ->
  exported' w order st (MQueue m) st' /\
  (length (MQueue m) <= size (handlerMap w))%nat /\
  clock st' = clock st /\ calls st' = calls st /\
  jobs st' = jobs st /\ ackJobs st' = ackJobs st.
Proof.
  intros Hord Hrun. unfold ExportMetrics in Hrun.
  pose proof (exportEach_spec w order [] st) as Hspec. cbv zeta in Hspec.
  destruct (exportEach' w order [] st) as [[ms|err] st1]; [|discriminate].
  injection Hrun as <- <-. cbn [fst snd MQueue] in *.
  destruct Hspec as [(ms' & Hres & Hex) | Hbad].
  - injection Hres as ->.
    destruct (exported_frame w order st ms' st1 Hex) as (Hc & Hl & Hj & Ha & Hlen).
    split; [exact Hex|]. split.
    { unfold range_order in Hord. rewrite Hord in Hlen.
      rewrite length_fmap, length_map_to_list in Hlen. exact Hlen. }
    auto.
  - destruct Hbad as (?&?&?&?&?&?&?&?&_&_&_&_&Hres&_). discriminate.
Qed.

(** X20.  When [ExportMetrics] fails, its error is the error of the
    first query that failed in the order of the iteration: the
    snapshots gathered before it are dropped, the handlers after it are
    not asked, and the state is the one that failing query left. *)
Theorem ExportMetrics_error (w : @Worker Σ Rand) (order : list (@handler Σ Rand))
        (st st' : @State Σ Rand) (err : error) :
  ExportMetrics asMetricsExporter w order st = (inr err, st') ->
  exists pre h post exporter ms st1 s,
    order = pre ++ h :: post /\
    exported' w pre st ms st1 /\
    exporter_of' w h = Some exporter /\
    GetQueueMetrics exporter (metricsOptions w h st1) (ext st1) = (inr err, s) /\
    st' = set_ext st1 s.
Proof.
  intros Hrun. unfold ExportMetrics in Hrun.
  pose proof (exportEach_spec w order [] st) as Hspec. cbv zeta in Hspec.
  destruct (exportEach' w order [] st) as [[ms|err'] st1]; [discriminate|].
  injection Hrun as -> ->. cbn [fst snd] in *.
  destruct Hspec as [(ms' & Hres & _) | Hbad]; [discriminate|].
  destruct Hbad as (pre & h & post & exporter & ms & st2 & err' & s &
                    Hhs & Hex & He & Hq & Hres & Hst).
  injection Hres as ->.
  exists pre, h, post, exporter, ms, st2, s. auto.
Qed.

(** X21.  When no registered handler has a queue that exports metrics
    (in particular when nothing is registered), [ExportMetrics] returns
    an empty result and no error, and asks no backend. *)
Theorem ExportMetrics_none (w : @Worker Σ Rand) (order : list (@handler Σ Rand))
        (st : @State Σ Rand) :
  (forall h, In h order -> exporter_of' w h = None) ->
  ExportMetrics asMetricsExporter w order st = (inl (mkMetrics []), st).
Proof.
  intros Hnone. unfold ExportMetrics.
  assert (Hloop : forall acc, exportEach' w order acc st = (inl acc, st)).
  { induction order as [|h hs IH]; intros acc; [reflexivity|].
    cbn [exportEach]. rewrite (Hnone h) by (left; reflexivity).
    apply IH. intros h' Hin. apply Hnone. right. exact Hin. }
  rewrite Hloop. reflexivity.
Qed.

End MetricsProperties.


(** A registry of one queue on a bulk-capable backend, which exports
    in the examples. *)
Lemma ExportMetrics_success_witness :
  let h := MoreExamples.hdOn "q" (Some Examples.bulkQueue) in
  let w := @mkWorker Examples.Mem unit Examples.wopts None false 0 (<["q" := h]> ∅) in
  range_order w [h] /\
  ExportMetrics MoreExamples.bulkExports w [h] MoreExamples.stJob
    = (inl (mkMetrics [1%nat]), MoreExamples.stJob) /\
  (length [1%nat] <= size (handlerMap w))%nat.
Proof.
  intros h w.
  assert (H1 : range_order w [h]).
  { unfold range_order, w. cbn [handlerMap].
    rewrite insert_empty, map_to_list_singleton. reflexivity. }
  assert (H2 : ExportMetrics MoreExamples.bulkExports w [h] MoreExamples.stJob
               = (inl (mkMetrics [1%nat]), MoreExamples.stJob)) by reflexivity.
  split; [exact H1|]. split; [exact H2|].
  exact (proj1 (proj2 (ExportMetrics_success MoreExamples.bulkExports w [h]
                         MoreExamples.stJob MoreExamples.stJob (mkMetrics [1%nat])
                         H1 H2))).
Defined.

(** Two queues, the second on a backend whose metrics query fails. *)
Lemma ExportMetrics_error_witness :
  let h1 := MoreExamples.hdOn "p" (Some Examples.bulkQueue) in
  let h2 := MoreExamples.hdOn "q" (Some Examples.memQueue) in
  let probe (q : @Queue Examples.Mem) :=
    match asBulkDequeuer q with
    | Some _ => Some MoreExamples.countExporter
    | None => Some MoreExamples.brokenExporter
    end in
  let w := @NewWorker Examples.Mem unit Examples.wopts in
  ExportMetrics probe w [h1; h2] MoreExamples.stJob
    = (inr Examples.errBackend, MoreExamples.stJob) /\
  exists pre h post exporter ms st1 s,
    [h1; h2] = pre ++ h :: post /\
    exported probe w pre MoreExamples.stJob ms st1 /\
    exporter_of probe w h = Some exporter /\
    GetQueueMetrics exporter (metricsOptions w h st1) (ext st1)
      = (inr Examples.errBackend, s) /\
    MoreExamples.stJob = set_ext st1 s.
Proof.
  intros h1 h2 probe w.
  assert (H : ExportMetrics probe w [h1; h2] MoreExamples.stJob
              = (inr Examples.errBackend, MoreExamples.stJob)) by reflexivity.
  split; [exact H|].
  exact (ExportMetrics_error probe w [h1; h2] MoreExamples.stJob MoreExamples.stJob
           Examples.errBackend H).
Defined.

Lemma ExportMetrics_none_witness :
  let h := MoreExamples.hdOn "q" (Some Examples.memQueue) in
  let w := @NewWorker Examples.Mem unit Examples.wopts in
  (forall h', In h' [h] -> exporter_of MoreExamples.bulkExports w h' = None) /\
  ExportMetrics MoreExamples.bulkExports w [h] MoreExamples.stJob
    = (inl (mkMetrics []), MoreExamples.stJob).
Proof.
  intros h w.
  assert (H : forall h', In h' [h] -> exporter_of MoreExamples.bulkExports w h' = None).
  { intros h' [<-|[]]. reflexivity. }
  split; [exact H|].
  exact (ExportMetrics_none MoreExamples.bulkExports w [h] MoreExamples.stJob H).
Defined.

(** ** A cycle and the flush that follows *)

Section CycleAndFlush.

Context {Σ Rand : Type}.
Variable NextBackOff :
  ExponentialBackOff -> Rand -> Duration * ExponentialBackOff * Rand.
Variable debug_Stack : Σ -> string.

(** X22.  On a backend without bulk support and with an empty ack
    buffer, a job the handler has handled successfully is acknowledged
    at the next flush tick under the namespace of the loop and the
    queue id of the handler; if that Ack succeeds the buffer is empty
    again, and if it fails the error goes to the error sink and the job
    stays in the buffer for the flush after. *)
Theorem handled_job_acked_at_tick
        (queue : @Queue Σ) (ns : string) (h : @handler Σ Rand)
        (errFunc : error -> @State Σ Rand -> @State Σ Rand)
        (ctx : Context) (d : Duration) (dequeue : DequeueFunc) (f : HandleFunc)
        (st st1 st2 : @State Σ Rand) (job job1 : Job) :
  asBulkDequeuer queue = None ->
  dequeue (cycleOptions ns h st) st = (Ret (inl job), st1) ->
  f job (cycleOptions ns h st) st1 = (Ret None, job1, st2) ->
  ackJobs st2 = [] ->
  let o := AckOptions.mk ns (h_QueueID h) in
  let after := snd (cycle queue ns h errFunc (idleWait ctx d dequeue)
                          (retry NextBackOff queue (catchPanic debug_Stack f)) st) in
  let acked := log (set_ext st2 (snd (Ack queue job1 o (ext st2)))) (EvAck job1 o) in
  ackJobs after = [job1] /\
  tick queue ns h errFunc after =
  match fst (Ack queue job1 o (ext st2)) with
  | None => acked
  | Some e => errFunc e (set_ackJobs acked [job1])
  end.
Proof.
  intros Hb Hd Hf Hemp o after acked.
  assert (Hd' : idleWait ctx d dequeue (cycleOptions ns h st) st = (Ret (inl job), st1)).
  { unfold idleWait. rewrite Hd. reflexivity. }
  pose proof (pipeline_success NextBackOff debug_Stack queue f job _ st1 job1 st2 Hf)
    as Hh.
  assert (Hafter : after = set_ackJobs st2 [job1]).
  { unfold after.
    rewrite (proj1 (cycle_handle_success queue ns h errFunc (idleWait ctx d dequeue) _
                                         st st1 job job1 st2 Hd' Hh)).
    - rewrite Hemp. reflexivity.
    - rewrite Hemp. simpl. lia. }
  rewrite Hafter. split; [reflexivity|].
  unfold tick, flush. rewrite Hb. cbn [ackJobs set_ackJobs ackEach].
  rewrite queue_Ack_eq. cbn [ext set_ackJobs]. fold o.
  destruct (Ack queue job1 o (ext st2)) as [[e|] s]; cbn [fst snd].
  - reflexivity.
  - unfold acked. cbn [snd]. destruct st2; cbn in *. subst. reflexivity.
Qed.

(** X23.  A handler error that is retried is not reported to the error
    sink: the cycle returns the error and ends in the state [retry]
    left, whose one added call is the Enqueue of the job under the
    namespace of the loop and the queue id of the handler, the same
    pair the cycle dequeues and acknowledges under; the ack buffer is
    as the handler left it. *)
Theorem retried_job_in_cycle
        (queue : @Queue Σ) (ns : string) (h : @handler Σ Rand)
        (errFunc : error -> @State Σ Rand -> @State Σ Rand)
        (ctx : Context) (d : Duration) (dequeue : DequeueFunc) (f : HandleFunc)
        (st st1 st2 : @State Σ Rand) (job job1 : Job) (err : error) :
  dequeue (cycleOptions ns h st) st = (Ret (inl job), st1) ->
  f job (cycleOptions ns h st) st1 = (Ret (Some err), job1, st2) ->
  errors_Is err ErrUnrecoverable = false ->
  errors_Is err ErrDoNotRetry = false ->
  let o := cycleOptions ns h st in
  let hr := retry NextBackOff queue (catchPanic debug_Stack f) job o st1 in
  cycle queue ns h errFunc (idleWait ctx d dequeue)
        (retry NextBackOff queue (catchPanic debug_Stack f)) st
    = (Ret (Some err), snd hr) /\
  calls (snd hr) =
    calls st2 ++ [EvEnqueue (snd (fst hr)) (EnqueueOptions.mk ns (h_QueueID h))] /\
  DequeueOptions.Namespace o = ns /\
  DequeueOptions.QueueID o = h_QueueID h /\
  ackJobs (snd hr) = ackJobs st2.
Proof.
  intros Hd Hf Hu Hdn o hr.
  assert (Hd' : idleWait ctx d dequeue o st = (Ret (inl job), st1)).
  { unfold idleWait, o. rewrite Hd. reflexivity. }
  assert (Hc : catchPanic debug_Stack f job o st1 = (Ret (Some err), job1, st2)).
  { unfold catchPanic, o. rewrite Hf. reflexivity. }
  pose proof (retry_retryable NextBackOff queue (catchPanic debug_Stack f) job o st1
                              err job1 st2 Hc Hu Hdn) as Hr.
  cbv zeta in Hr. fold hr in Hr.
  split.
  - apply (cycle_handle_error queue ns h errFunc (idleWait ctx d dequeue)
                              (retry NextBackOff queue (catchPanic debug_Stack f))
                              st st1 job err (snd (fst hr))).
    + exact Hd'.
    + fold o. fold hr. rewrite Hr. reflexivity.
  - rewrite Hr. cbn [fst snd calls log set_ext set_rand ackJobs].
    repeat split.
Qed.

End CycleAndFlush.

Lemma handled_job_acked_at_tick_witness :
  let h := Examples.hd Second in
  let o := cycleOptions "ns" h MoreExamples.stJob in
  let dequeue := getDequeueFunc Examples.memQueue in
  let st1 := mkState [] 5 tt [EvDequeue o] 1 [] [] in
  let errFunc := start_errFunc (NewWorker Examples.wopts) h in
  let after := snd (cycle Examples.memQueue "ns" h errFunc
                          (idleWait context_Background Second dequeue)
                          (retry Examples.plainBackOff Examples.memQueue
                                 (catchPanic Examples.stack Examples.okHandler))
                          MoreExamples.stJob) in
  asBulkDequeuer Examples.memQueue = None /\
  dequeue o MoreExamples.stJob = (Ret (inl Examples.job1), st1) /\
  Examples.okHandler Examples.job1 o st1 = (Ret None, Examples.job1, st1) /\
  ackJobs st1 = [] /\
  tick Examples.memQueue "ns" h errFunc after =
  mkState [] 5 tt [EvDequeue o; EvAck Examples.job1 (AckOptions.mk "ns" "q")] 1 [] [].
Proof.
  intros h o dequeue st1 errFunc after.
  assert (H1 : asBulkDequeuer Examples.memQueue = None) by reflexivity.
  assert (H2 : dequeue o MoreExamples.stJob = (Ret (inl Examples.job1), st1))
    by reflexivity.
  assert (H3 : Examples.okHandler Examples.job1 o st1 = (Ret None, Examples.job1, st1))
    by reflexivity.
  assert (H4 : ackJobs st1 = []) by reflexivity.
  split; [exact H1|]. split; [exact H2|]. split; [exact H3|]. split; [exact H4|].
  exact (proj2 (handled_job_acked_at_tick Examples.plainBackOff Examples.stack
                  Examples.memQueue "ns" h errFunc context_Background Second dequeue
                  Examples.okHandler _ _ _ _ _ H1 H2 H3 H4)).
Defined.

Lemma retried_job_in_cycle_witness :
  let h := Examples.hd Second in
  let o := cycleOptions "ns" h MoreExamples.stJob in
  let dequeue := getDequeueFunc Examples.memQueue in
  let st1 := mkState [] 5 tt [EvDequeue o] 1 [] [] in
  let f := Examples.failWith Examples.errBoom in
  dequeue o MoreExamples.stJob = (Ret (inl Examples.job1), st1) /\
  f Examples.job1 o st1 = (Ret (Some Examples.errBoom), Examples.job1, st1) /\
  errors_Is Examples.errBoom ErrUnrecoverable = false /\
  errors_Is Examples.errBoom ErrDoNotRetry = false /\
  fst (cycle Examples.memQueue "ns" h (fun _ s => s)
             (idleWait context_Background Second dequeue)
             (retry Examples.plainBackOff Examples.memQueue
                    (catchPanic Examples.stack f))
             MoreExamples.stJob) = Ret (Some Examples.errBoom).
Proof.
  intros h o dequeue st1 f.
  assert (H1 : dequeue o MoreExamples.stJob = (Ret (inl Examples.job1), st1))
    by reflexivity.
  assert (H2 : f Examples.job1 o st1 = (Ret (Some Examples.errBoom), Examples.job1, st1))
    by reflexivity.
  assert (H3 : errors_Is Examples.errBoom ErrUnrecoverable = false) by reflexivity.
  assert (H4 : errors_Is Examples.errBoom ErrDoNotRetry = false) by reflexivity.
  split; [exact H1|]. split; [exact H2|]. split; [exact H3|]. split; [exact H4|].
  rewrite (proj1 (retried_job_in_cycle Examples.plainBackOff Examples.stack
                    Examples.memQueue "ns" h (fun _ s => s) context_Background Second
                    dequeue f _ _ _ _ _ _ H1 H2 H3 H4)).
  reflexivity.
Defined.
